(** * gostcrypto: Streebog (GOST R 34.11-2012) and GOST R 34.10-2012 signatures

    A shallow embedding of [gostcrypto/gosthash/gost_34_11_2012.py] and
    [gostcrypto/gostsignature/gost_34_10_2012.py].

    Conventions.  A Python [int] is a [Z]; Python's [//] and [%] are
    [Z.div] and [Z.modulo] (both floor, sign of the divisor), with the
    [ZeroDivisionError] of a zero divisor written out.  A byte string is a
    [list Z] of values in [0, 256).  A raising function returns a [result];
    a loop whose number of iterations is not fixed by a [range] takes a
    fuel bound and answers [OutOfFuel] when it is exhausted. *)

From stdpp Require Import gmap strings list.
From Stdlib Require Import ZArith Lia.

Local Open Scope Z_scope.

(** ** Exceptions and results *)

Inductive exn : Type :=
| GOSTHashError (msg : string)
| ValueError (msg : string)
| KeyError (key : string)
| UnboundLocalError (name : string)
| UtilsFailure (what : string)
| TypeError
| IndexError
| StructError
| ZeroDivisionError
| SystemExit.

Inductive result (A : Type) : Type :=
| Ok (a : A)
| Raise (e : exn)
| OutOfFuel.

Arguments Ok {A} a.
Arguments Raise {A} e.
Arguments OutOfFuel {A}.

#[global] Instance result_ret : MRet result := fun A a => Ok a.

#[global] Instance result_bind : MBind result := fun A B f r =>
  match r with
  | Ok a => f a
  | Raise e => Raise e
  | OutOfFuel => OutOfFuel
  end.

Abbreviation bytes := (list Z).

Definition is_byte (b : Z) : bool := (0 <=? b) && (b <? 256).

Definition bytes_ok (l : bytes) : bool := forallb is_byte l.

(** [l[i]] on a tuple, [bytes] or [bytearray]. *)
Definition getitem {A : Type} (l : list A) (i : nat) : result A :=
  match l !! i with
  | Some x => Ok x
  | None => Raise IndexError
  end.

(** [l[lo:hi]] for [0 <= lo <= hi]. *)
Definition slice {A : Type} (l : list A) (lo hi : nat) : list A :=
  take (hi - lo) (drop lo l).

(** [l[-k:]] for [k >= 1]. *)
Definition last_bytes {A : Type} (l : list A) (k : nat) : list A :=
  drop (length l - k) l.

(** [for i in idx: res[i] = f(i)] on a preallocated array. *)
Fixpoint for_fill (idx : list nat) (f : nat -> result Z) (res : bytes)
  : result bytes :=
  match idx with
  | [] => Ok res
  | i :: idx' => v ← f i; for_fill idx' f (<[i:=v]> res)
  end.

(** [range(n - 1, -1, -1)] *)
Definition range_down (n : nat) : list nat := rev (seq 0 n).

(** ** gostcrypto.utils *)

Module utils.

(** Modelled from the spec: [gostcrypto.utils.add_xor] is not among the
    sources.  "xor(a, b): bytewise XOR of two equal-length byte
    sequences.  Fails if lengths differ." *)
Definition add_xor (op_a op_b : bytes) : result bytes :=
  if (length op_a =? length op_b)%nat
  then Ok (zip_with Z.lxor op_a op_b)
  else Raise (UtilsFailure "add_xor").

(** Modelled from the spec: [gostcrypto.utils.bytearray_to_int] is not
    among the sources.  "be_bytes_to_uint(b): big-endian unsigned
    conversion." *)
Definition bytearray_to_int (array : bytes) : Z :=
  fold_left (fun acc b => acc * 256 + b) array 0.

(** Modelled from the spec: [gostcrypto.utils.int_to_bytearray] is not
    among the sources.  "uint_to_be_bytes(n, width): big-endian,
    zero-padded on the left; fails if n does not fit." *)
Definition int_to_bytearray (number : Z) (size : nat) : result bytes :=
  if (0 <=? number) && (number <? 256 ^ Z.of_nat size)
  then Ok (map (fun i => Z.land (Z.shiftr number (8 * Z.of_nat i)) 255)
               (range_down size))
  else Raise (UtilsFailure "int_to_bytearray").

(** Modelled from the spec: [gostcrypto.utils.compare] is not among the
    sources.  "equal_bytes(a, b): fixed-width equality." *)
Definition compare (op_a op_b : bytes) : bool := bool_decide (op_a = op_b).

(** Modelled from the spec: [gostcrypto.utils.compare_to_zero] is not
    among the sources.  "is_zero_bytes(b)." *)
Definition compare_to_zero (array : bytes) : bool := forallb (Z.eqb 0) array.

(** Modelled from the spec: [gostcrypto.utils.zero_fill] is not among the
    sources.  "A zero-fill wipe primitive"; the callers pass it a length
    and bind its result, so it is the all-zero buffer of that length. *)
Definition zero_fill (size : nat) : bytes := replicate size 0.

(** Modelled from the spec: [gostcrypto.utils.S_BOX] is not among the
    sources.  "S_BOX[0..255]: the GOST pi substitution table." *)
Definition S_BOX : list Z :=
  [ 252; 238; 221;  17; 207; 110;  49;  22; 251; 196; 250; 218;  35; 197;   4;  77;
    233; 119; 240; 219; 147;  46; 153; 186;  23;  54; 241; 187;  20; 205;  95; 193;
    249;  24; 101;  90; 226;  92; 239;  33; 129;  28;  60;  66; 139;   1; 142;  79;
      5; 132;   2; 174; 227; 106; 143; 160;   6;  11; 237; 152; 127; 212; 211;  31;
    235;  52;  44;  81; 234; 200;  72; 171; 242;  42; 104; 162; 253;  58; 206; 204;
    181; 112;  14;  86;   8;  12; 118;  18; 191; 114;  19;  71; 156; 183;  93; 135;
     21; 161; 150;  41;  16; 123; 154; 199; 243; 145; 120; 111; 157; 158; 178; 177;
     50; 117;  25;  61; 255;  53; 138; 126; 109;  84; 198; 128; 195; 189;  13;  87;
    223; 245;  36; 169;  62; 168;  67; 201; 215; 121; 214; 246; 124;  34; 185;   3;
    224;  15; 236; 222; 122; 148; 176; 188; 220; 232;  40;  80;  78;  51;  10;  74;
    167; 151;  96; 115;  30;   0;  98;  68;  26; 184;  56; 130; 100; 159;  38;  65;
    173;  69;  70; 146;  39;  94;  85;  47; 140; 163; 165; 125; 105; 213; 149;  59;
      7;  88; 179;  64; 134; 172;  29; 247;  48;  55; 107; 228; 136; 217; 231; 137;
    225;  27; 131;  73;  76;  63; 248; 254; 141;  83; 170; 144; 202; 216; 133;  97;
     32; 113; 103; 164;  45;  43;   9;  91; 203; 155;  37; 208; 190; 229; 108;  82;
     89; 166; 116; 210; 230; 244; 180; 192; 209; 102; 175; 194;  57;  75;  99; 182 ].

End utils.

(** ** gostcrypto.gosthash.gost_34_11_2012 *)

Module gosthash.

Import utils.

Definition _BLOCK_SIZE : nat := 64.

Definition _V_0 : bytes := replicate _BLOCK_SIZE 0.

Definition _V_512 : bytes := [0; 2] ++ replicate 62 0.

Definition _TAU : list nat :=
  [ 0;  8; 16; 24; 32; 40; 48; 56;
    1;  9; 17; 25; 33; 41; 49; 57;
    2; 10; 18; 26; 34; 42; 50; 58;
    3; 11; 19; 27; 35; 43; 51; 59;
    4; 12; 20; 28; 36; 44; 52; 60;
    5; 13; 21; 29; 37; 45; 53; 61;
    6; 14; 22; 30; 38; 46; 54; 62;
    7; 15; 23; 31; 39; 47; 55; 63 ]%nat.

Definition _A : list Z :=
  [ 0x8e20faa72ba0b470; 0x47107ddd9b505a38;
    0xad08b0e0c3282d1c; 0xd8045870ef14980e;
    0x6c022c38f90a4c07; 0x3601161cf205268d;
    0x1b8e0b0e798c13c8; 0x83478b07b2468764;
    0xa011d380818e8f40; 0x5086e740ce47c920;
    0x2843fd2067adea10; 0x14aff010bdd87508;
    0x0ad97808d06cb404; 0x05e23c0468365a02;
    0x8c711e02341b2d01; 0x46b60f011a83988e;
    0x90dab52a387ae76f; 0x486dd4151c3dfdb9;
    0x24b86a840e90f0d2; 0x125c354207487869;
    0x092e94218d243cba; 0x8a174a9ec8121e5d;
    0x4585254f64090fa0; 0xaccc9ca9328a8950;
    0x9d4df05d5f661451; 0xc0a878a0a1330aa6;
    0x60543c50de970553; 0x302a1e286fc58ca7;
    0x18150f14b9ec46dd; 0x0c84890ad27623e0;
    0x0642ca05693b9f70; 0x0321658cba93c138;
    0x86275df09ce8aaa8; 0x439da0784e745554;
    0xafc0503c273aa42a; 0xd960281e9d1d5215;
    0xe230140fc0802984; 0x71180a8960409a42;
    0xb60c05ca30204d21; 0x5b068c651810a89e;
    0x456c34887a3805b9; 0xac361a443d1c8cd2;
    0x561b0d22900e4669; 0x2b838811480723ba;
    0x9bcf4486248d9f5d; 0xc3e9224312c8c1a0;
    0xeffa11af0964ee50; 0xf97d86d98a327728;
    0xe4fa2054a80b329c; 0x727d102a548b194e;
    0x39b008152acb8227; 0x9258048415eb419d;
    0x492c024284fbaec0; 0xaa16012142f35760;
    0x550b8e9e21f7a530; 0xa48b474f9ef5dc18;
    0x70a6a56e2440598e; 0x3853dc371220a247;
    0x1ca76e95091051ad; 0x0edd37c48a08a6d8;
    0x07e095624504536c; 0x8d70c431ac02a736;
    0xc83862965601dd1b; 0x641c314b2b8ee083 ].

Definition _C : list bytes :=
  [
  [
    0x07; 0x45; 0xa6; 0xf2; 0x59; 0x65; 0x80; 0xdd;
    0x23; 0x4d; 0x74; 0xcc; 0x36; 0x74; 0x76; 0x05;
    0x15; 0xd3; 0x60; 0xa4; 0x08; 0x2a; 0x42; 0xa2;
    0x01; 0x69; 0x67; 0x92; 0x91; 0xe0; 0x7c; 0x4b;
    0xfc; 0xc4; 0x85; 0x75; 0x8d; 0xb8; 0x4e; 0x71;
    0x16; 0xd0; 0x45; 0x2e; 0x43; 0x76; 0x6a; 0x2f;
    0x1f; 0x7c; 0x65; 0xc0; 0x81; 0x2f; 0xcb; 0xeb;
    0xe9; 0xda; 0xca; 0x1e; 0xda; 0x5b; 0x08; 0xb1 ];
  [
    0xb7; 0x9b; 0xb1; 0x21; 0x70; 0x04; 0x79; 0xe6;
    0x56; 0xcd; 0xcb; 0xd7; 0x1b; 0xa2; 0xdd; 0x55;
    0xca; 0xa7; 0x0a; 0xdb; 0xc2; 0x61; 0xb5; 0x5c;
    0x58; 0x99; 0xd6; 0x12; 0x6b; 0x17; 0xb5; 0x9a;
    0x31; 0x01; 0xb5; 0x16; 0x0f; 0x5e; 0xd5; 0x61;
    0x98; 0x2b; 0x23; 0x0a; 0x72; 0xea; 0xfe; 0xf3;
    0xd7; 0xb5; 0x70; 0x0f; 0x46; 0x9d; 0xe3; 0x4f;
    0x1a; 0x2f; 0x9d; 0xa9; 0x8a; 0xb5; 0xa3; 0x6f ];
  [
    0xb2; 0x0a; 0xba; 0x0a; 0xf5; 0x96; 0x1e; 0x99;
    0x31; 0xdb; 0x7a; 0x86; 0x43; 0xf4; 0xb6; 0xc2;
    0x09; 0xdb; 0x62; 0x60; 0x37; 0x3a; 0xc9; 0xc1;
    0xb1; 0x9e; 0x35; 0x90; 0xe4; 0x0f; 0xe2; 0xd3;
    0x7b; 0x7b; 0x29; 0xb1; 0x14; 0x75; 0xea; 0xf2;
    0x8b; 0x1f; 0x9c; 0x52; 0x5f; 0x5e; 0xf1; 0x06;
    0x35; 0x84; 0x3d; 0x6a; 0x28; 0xfc; 0x39; 0x0a;
    0xc7; 0x2f; 0xce; 0x2b; 0xac; 0xdc; 0x74; 0xf5 ];
  [
    0x2e; 0xd1; 0xe3; 0x84; 0xbc; 0xbe; 0x0c; 0x22;
    0xf1; 0x37; 0xe8; 0x93; 0xa1; 0xea; 0x53; 0x34;
    0xbe; 0x03; 0x52; 0x93; 0x33; 0x13; 0xb7; 0xd8;
    0x75; 0xd6; 0x03; 0xed; 0x82; 0x2c; 0xd7; 0xa9;
    0x3f; 0x35; 0x5e; 0x68; 0xad; 0x1c; 0x72; 0x9d;
    0x7d; 0x3c; 0x5c; 0x33; 0x7e; 0x85; 0x8e; 0x48;
    0xdd; 0xe4; 0x71; 0x5d; 0xa0; 0xe1; 0x48; 0xf9;
    0xd2; 0x66; 0x15; 0xe8; 0xb3; 0xdf; 0x1f; 0xef ];
  [
    0x57; 0xfe; 0x6c; 0x7c; 0xfd; 0x58; 0x17; 0x60;
    0xf5; 0x63; 0xea; 0xa9; 0x7e; 0xa2; 0x56; 0x7a;
    0x16; 0x1a; 0x27; 0x23; 0xb7; 0x00; 0xff; 0xdf;
    0xa3; 0xf5; 0x3a; 0x25; 0x47; 0x17; 0xcd; 0xbf;
    0xbd; 0xff; 0x0f; 0x80; 0xd7; 0x35; 0x9e; 0x35;
    0x4a; 0x10; 0x86; 0x16; 0x1f; 0x1c; 0x15; 0x7f;
    0x63; 0x23; 0xa9; 0x6c; 0x0c; 0x41; 0x3f; 0x9a;
    0x99; 0x47; 0x47; 0xad; 0xac; 0x6b; 0xea; 0x4b ];
  [
    0x6e; 0x7d; 0x64; 0x46; 0x7a; 0x40; 0x68; 0xfa;
    0x35; 0x4f; 0x90; 0x36; 0x72; 0xc5; 0x71; 0xbf;
    0xb6; 0xc6; 0xbe; 0xc2; 0x66; 0x1f; 0xf2; 0x0a;
    0xb4; 0xb7; 0x9a; 0x1c; 0xb7; 0xa6; 0xfa; 0xcf;
    0xc6; 0x8e; 0xf0; 0x9a; 0xb4; 0x9a; 0x7f; 0x18;
    0x6c; 0xa4; 0x42; 0x51; 0xf9; 0xc4; 0x66; 0x2d;
    0xc0; 0x39; 0x30; 0x7a; 0x3b; 0xc3; 0xa4; 0x6f;
    0xd9; 0xd3; 0x3a; 0x1d; 0xae; 0xae; 0x4f; 0xae ];
  [
    0x93; 0xd4; 0x14; 0x3a; 0x4d; 0x56; 0x86; 0x88;
    0xf3; 0x4a; 0x3c; 0xa2; 0x4c; 0x45; 0x17; 0x35;
    0x04; 0x05; 0x4a; 0x28; 0x83; 0x69; 0x47; 0x06;
    0x37; 0x2c; 0x82; 0x2d; 0xc5; 0xab; 0x92; 0x09;
    0xc9; 0x93; 0x7a; 0x19; 0x33; 0x3e; 0x47; 0xd3;
    0xc9; 0x87; 0xbf; 0xe6; 0xc7; 0xc6; 0x9e; 0x39;
    0x54; 0x09; 0x24; 0xbf; 0xfe; 0x86; 0xac; 0x51;
    0xec; 0xc5; 0xaa; 0xee; 0x16; 0x0e; 0xc7; 0xf4 ];
  [
    0x1e; 0xe7; 0x02; 0xbf; 0xd4; 0x0d; 0x7f; 0xa4;
    0xd9; 0xa8; 0x51; 0x59; 0x35; 0xc2; 0xac; 0x36;
    0x2f; 0xc4; 0xa5; 0xd1; 0x2b; 0x8d; 0xd1; 0x69;
    0x90; 0x06; 0x9b; 0x92; 0xcb; 0x2b; 0x89; 0xf4;
    0x9a; 0xc4; 0xdb; 0x4d; 0x3b; 0x44; 0xb4; 0x89;
    0x1e; 0xde; 0x36; 0x9c; 0x71; 0xf8; 0xb7; 0x4e;
    0x41; 0x41; 0x6e; 0x0c; 0x02; 0xaa; 0xe7; 0x03;
    0xa7; 0xc9; 0x93; 0x4d; 0x42; 0x5b; 0x1f; 0x9b ];
  [
    0xdb; 0x5a; 0x23; 0x83; 0x51; 0x44; 0x61; 0x72;
    0x60; 0x2a; 0x1f; 0xcb; 0x92; 0xdc; 0x38; 0x0e;
    0x54; 0x9c; 0x07; 0xa6; 0x9a; 0x8a; 0x2b; 0x7b;
    0xb1; 0xce; 0xb2; 0xdb; 0x0b; 0x44; 0x0a; 0x80;
    0x84; 0x09; 0x0d; 0xe0; 0xb7; 0x55; 0xd9; 0x3c;
    0x24; 0x42; 0x89; 0x25; 0x1b; 0x3a; 0x7d; 0x3a;
    0xde; 0x5f; 0x16; 0xec; 0xd8; 0x9a; 0x4c; 0x94;
    0x9b; 0x22; 0x31; 0x16; 0x54; 0x5a; 0x8f; 0x37 ];
  [
    0xed; 0x9c; 0x45; 0x98; 0xfb; 0xc7; 0xb4; 0x74;
    0xc3; 0xb6; 0x3b; 0x15; 0xd1; 0xfa; 0x98; 0x36;
    0xf4; 0x52; 0x76; 0x3b; 0x30; 0x6c; 0x1e; 0x7a;
    0x4b; 0x33; 0x69; 0xaf; 0x02; 0x67; 0xe7; 0x9f;
    0x03; 0x61; 0x33; 0x1b; 0x8a; 0xe1; 0xff; 0x1f;
    0xdb; 0x78; 0x8a; 0xff; 0x1c; 0xe7; 0x41; 0x89;
    0xf3; 0xf3; 0xe4; 0xb2; 0x48; 0xe5; 0x2a; 0x38;
    0x52; 0x6f; 0x05; 0x80; 0xa6; 0xde; 0xbe; 0xab ];
  [
    0x1b; 0x2d; 0xf3; 0x81; 0xcd; 0xa4; 0xca; 0x6b;
    0x5d; 0xd8; 0x6f; 0xc0; 0x4a; 0x59; 0xa2; 0xde;
    0x98; 0x6e; 0x47; 0x7d; 0x1d; 0xcd; 0xba; 0xef;
    0xca; 0xb9; 0x48; 0xea; 0xef; 0x71; 0x1d; 0x8a;
    0x79; 0x66; 0x84; 0x14; 0x21; 0x80; 0x01; 0x20;
    0x61; 0x07; 0xab; 0xeb; 0xbb; 0x6b; 0xfa; 0xd8;
    0x94; 0xfe; 0x5a; 0x63; 0xcd; 0xc6; 0x02; 0x30;
    0xfb; 0x89; 0xc8; 0xef; 0xd0; 0x9e; 0xcd; 0x7b ];
  [
    0x20; 0xd7; 0x1b; 0xf1; 0x4a; 0x92; 0xbc; 0x48;
    0x99; 0x1b; 0xb2; 0xd9; 0xd5; 0x17; 0xf4; 0xfa;
    0x52; 0x28; 0xe1; 0x88; 0xaa; 0xa4; 0x1d; 0xe7;
    0x86; 0xcc; 0x91; 0x18; 0x9d; 0xef; 0x80; 0x5d;
    0x9b; 0x9f; 0x21; 0x30; 0xd4; 0x12; 0x20; 0xf8;
    0x77; 0x1d; 0xdf; 0xbc; 0x32; 0x3c; 0xa4; 0xcd;
    0x7a; 0xb1; 0x49; 0x04; 0xb0; 0x80; 0x13; 0xd2;
    0xba; 0x31; 0x16; 0xf1; 0x67; 0xe7; 0x8e; 0x37 ]
  ].

(** [int.from_bytes(b, 'little')] *)
Definition le_int (b : bytes) : Z :=
  fold_right (fun x acc => x + 256 * acc) 0 b.

(** [struct.unpack('<Q', b)[0]]: the buffer must hold exactly 8 bytes. *)
Definition unpack_Q (b : bytes) : result Z :=
  if (length b =? 8)%nat then Ok (le_int b) else Raise StructError.

(** [struct.pack('<Q', v)]: the value must fit 64 unsigned bits. *)
Definition pack_Q (v : Z) : result bytes :=
  if (0 <=? v) && (v <? 2 ^ 64)
  then Ok (map (fun i => Z.land (Z.shiftr v (8 * Z.of_nat i)) 255) (seq 0 8))
  else Raise StructError.

Fixpoint add_512_loop (idx : list nat) (op_a op_b : bytes) (op_c : Z)
  (res : bytes) : result bytes :=
  match idx with
  | [] => Ok res
  | i :: idx' =>
      a ← getitem op_a i;
      b ← getitem op_b i;
      let op_c := a + b + Z.shiftr op_c 8 in
      add_512_loop idx' op_a op_b op_c (<[i := Z.land op_c 0xff]> res)
  end.

Definition _hash_add_512 (op_a op_b : bytes) : result bytes :=
  add_512_loop (seq 0 _BLOCK_SIZE) op_a op_b 0 (replicate _BLOCK_SIZE 0).

Definition _hash_p (data : bytes) : result bytes :=
  for_fill (range_down _BLOCK_SIZE)
    (fun i => t ← getitem _TAU i; getitem data t)
    (replicate _BLOCK_SIZE 0).

Definition _hash_s (data : bytes) : result bytes :=
  for_fill (range_down _BLOCK_SIZE)
    (fun i => d ← getitem data i; getitem S_BOX (Z.to_nat d))
    (replicate _BLOCK_SIZE 0).

(** The inner loop of [_hash_l] on one 64-bit lane. *)
Fixpoint hash_l_lane (idx : list nat) (internal result_64 : Z) : result Z :=
  match idx with
  | [] => Ok result_64
  | j :: idx' =>
      result_64 ← (if Z.land internal 1 =? 0 then Ok result_64
                   else a ← getitem _A j; Ok (Z.lxor result_64 a));
      hash_l_lane idx' (Z.shiftr internal 1) result_64
  end.

Fixpoint hash_l_loop (idx : list nat) (data : bytes) (res : list bytes)
  : result (list bytes) :=
  match idx with
  | [] => Ok res
  | i :: idx' =>
      internal ← unpack_Q (slice data (i * 8) (i * 8 + 8));
      result_64 ← hash_l_lane (range_down _BLOCK_SIZE) internal 0;
      packed ← pack_Q result_64;
      hash_l_loop idx' data (res ++ [packed])
  end.

Definition _hash_l (data : bytes) : result bytes :=
  res ← hash_l_loop (seq 0 8) data [];
  Ok (concat res).

Definition _hash_get_key (k : bytes) (i : nat) : result bytes :=
  c ← getitem _C i;
  key ← add_xor k c;
  key ← _hash_s key;
  key ← _hash_p key;
  _hash_l key.

Fixpoint hash_e_loop (idx : list nat) (k internal : bytes) : result bytes :=
  match idx with
  | [] => Ok internal
  | i :: idx' =>
      internal ← _hash_s internal;
      internal ← _hash_p internal;
      internal ← _hash_l internal;
      k ← _hash_get_key k i;
      internal ← add_xor internal k;
      hash_e_loop idx' k internal
  end.

Definition _hash_e (k data : bytes) : result bytes :=
  internal ← add_xor k data;
  hash_e_loop (seq 0 12) k internal.

Definition _hash_g (hash_h hash_n data : bytes) : result bytes :=
  k ← add_xor hash_n hash_h;
  k ← _hash_s k;
  k ← _hash_p k;
  k ← _hash_l k;
  internal ← _hash_e k data;
  internal ← add_xor internal hash_h;
  add_xor internal data.

(** The attributes of a [GOST34112012] object. *)
Record GOST34112012 : Type := mkGOST34112012 {
  _name : string;
  _buff : bytes;
  _num_block : nat;
  _pad_block_size : Z;
  _hash_h : bytes;
  _hash_n : bytes;
  _hash_sigma : bytes
}.

(** The block loop of [update]: [for i in range(0, num_block * 64, 64)]. *)
Fixpoint update_loop (idx : list nat) (data : bytes) (self : GOST34112012)
  : result GOST34112012 :=
  match idx with
  | [] => Ok self
  | i :: idx' =>
      let block := slice data i (i + _BLOCK_SIZE) in
      h ← _hash_g (_hash_h self) (_hash_n self) block;
      n ← _hash_add_512 (_hash_n self) _V_512;
      sigma ← _hash_add_512 (_hash_sigma self) block;
      update_loop idx' data
        (mkGOST34112012 (_name self) (_buff self) (_num_block self)
           (_pad_block_size self) h n sigma)
  end.

Definition update (self : GOST34112012) (data : bytes) : result GOST34112012 :=
  let data := _buff self ++ data in
  let num_block := (length data / _BLOCK_SIZE)%nat in
  self ← update_loop (map (fun j => (j * _BLOCK_SIZE)%nat) (seq 0 num_block))
           data
           (mkGOST34112012 (_name self) (_buff self) num_block
              (_pad_block_size self) (_hash_h self) (_hash_n self)
              (_hash_sigma self));
  let pad_block_size :=
    Z.of_nat _BLOCK_SIZE - Z.of_nat (length data) mod Z.of_nat _BLOCK_SIZE in
  Ok (mkGOST34112012 (_name self)
        (if pad_block_size <? Z.of_nat _BLOCK_SIZE
         then last_bytes data (Z.to_nat (Z.of_nat _BLOCK_SIZE - pad_block_size))
         else _buff self)
        (_num_block self) pad_block_size
        (_hash_h self) (_hash_n self) (_hash_sigma self)).

Definition hash_final (self : GOST34112012) : result GOST34112012 :=
  let pad_block_size := Z.of_nat _BLOCK_SIZE - Z.of_nat (length (_buff self)) in
  let internal := replicate _BLOCK_SIZE 0 in
  let internal :=
    <[1%nat := Z.land (Z.shiftr ((Z.of_nat _BLOCK_SIZE - pad_block_size) * 8) 8)
                 0xff]> internal in
  let internal :=
    <[0%nat := Z.land ((Z.of_nat _BLOCK_SIZE - pad_block_size) * 8) 0xff]>
      internal in
  let buff :=
    if pad_block_size <=? Z.of_nat _BLOCK_SIZE
    then (_buff self ++ [1]) ++ replicate (Z.to_nat (pad_block_size - 1)) 0
    else _buff self in
  h ← _hash_g (_hash_h self) (_hash_n self) buff;
  n ← _hash_add_512 (_hash_n self) internal;
  sigma ← _hash_add_512 (_hash_sigma self) buff;
  h ← _hash_g h _V_0 n;
  h ← _hash_g h _V_0 sigma;
  Ok (mkGOST34112012 (_name self) buff (_num_block self) pad_block_size
        h n sigma).

Definition digest_size (self : GOST34112012) : nat :=
  if String.eqb (_name self) "streebog512" then 64%nat else 32%nat.

Definition get_hash (self : GOST34112012) : bytes :=
  last_bytes (_hash_h self) (digest_size self).

(** [copy] is [deepcopy(self)]: in a functional model the value itself. *)
Definition copy (self : GOST34112012) : GOST34112012 := self.

Definition digest (self : GOST34112012) : result bytes :=
  temp ← hash_final (copy self);
  Ok (get_hash temp).

Definition reset (self : GOST34112012) : GOST34112012 :=
  mkGOST34112012 (_name self) [] 0 0
    (if String.eqb (_name self) "streebog256"
     then replicate _BLOCK_SIZE 1 else replicate _BLOCK_SIZE 0)
    (replicate _BLOCK_SIZE 0) (replicate _BLOCK_SIZE 0).

(** [GOST34112012.__init__] *)
Definition init (name : string) (data : bytes) : result GOST34112012 :=
  let self :=
    mkGOST34112012 name [] 0 0
      (if String.eqb name "streebog256"
       then replicate _BLOCK_SIZE 1 else replicate _BLOCK_SIZE 0)
      (replicate _BLOCK_SIZE 0) (replicate _BLOCK_SIZE 0) in
  if bool_decide (data = []) then Ok self else update self data.

Definition new (name : string) (data : bytes) : result GOST34112012 :=
  if String.eqb name "streebog512" || String.eqb name "streebog256"
  then init name data
  else Raise (GOSTHashError "GOSTHashError: unsupported hash type").

End gosthash.

(** ** gostcrypto.gostsignature.gost_34_10_2012 *)

Module gostsignature.

Import utils.

Definition MODE_256 : Z := 0x01.
Definition MODE_512 : Z := 0x02.

(** [a % b] with the [ZeroDivisionError] of a zero divisor. *)
Definition pymod (a b : Z) : result Z :=
  if b =? 0 then Raise ZeroDivisionError else Ok (a mod b).

(** The entry ['id-tc26-gost-3410-2012-256-paramSetB'] of
    [CURVES_R_1323565_1_024_2019]. *)
Definition paramSetB : gmap string Z :=
  <["p" := 0xfffffffffffffffffffffffffffffffffffffffffffffffffffffffffffffd97]>
  (<["a" := 0xfffffffffffffffffffffffffffffffffffffffffffffffffffffffffffffd94]>
  (<["b" := 0xa6]>
  (<["m" := 0xffffffffffffffffffffffffffffffff6c611070995ad10045841b09b761b893]>
  (<["q" := 0xffffffffffffffffffffffffffffffff6c611070995ad10045841b09b761b893]>
  (<["x" := 0x01]>
  (<["y" := 0x8d91e471e0989cda27df505a453f2b7635294f2ddf23e3b122acc99c9e9f1e14]>
   ∅)))))).

(** The entry ['id-tc26-gost-3410-12-512-paramSetA'] of
    [CURVES_R_1323565_1_024_2019]. *)
Definition paramSetA_512 : gmap string Z :=
  <["p" := 0xfffffffffffffffffffffffffffffffffffffffffffffffffffffffffffffffffffffffffffffffffffffffffffffffffffffffffffffffffffffffffffffdc7]>
  (<["a" := 0xfffffffffffffffffffffffffffffffffffffffffffffffffffffffffffffffffffffffffffffffffffffffffffffffffffffffffffffffffffffffffffffdc4]>
  (<["b" := 0xe8c2505dedfc86ddc1bd0b2b6667f1da34b82574761cb0e879bd081cfd0b6265ee3cb090f30d27614cb4574010da90dd862ef9d4ebee4761503190785a71c760]>
  (<["m" := 0xffffffffffffffffffffffffffffffffffffffffffffffffffffffffffffffff27e69532f48d89116ff22b8d4e0560609b4b38abfad2b85dcacdb1411f10b275]>
  (<["q" := 0xffffffffffffffffffffffffffffffffffffffffffffffffffffffffffffffff27e69532f48d89116ff22b8d4e0560609b4b38abfad2b85dcacdb1411f10b275]>
  (<["x" := 0x03]>
  (<["y" := 0x7503cfe87a836ae3a61b8816e25450e6ce5e1c93acf1abc1778064fdcbefa921df1626be4fd036e93d75e6a50e3a41e98028fe5fc235f5b889a589cb5215f2a4]>
   ∅)))))).

(** The attributes of a [GOST34102012] object after [__init__].  The
    Edwards parameters stay [None] when the curve mapping has none. *)
Record GOST34102012 : Type := mkGOST34102012 {
  _p : Z;
  _a : Z;
  _b : Z;
  _e : option Z;
  _d : option Z;
  _m : Z;
  _q : Z;
  _x : Z;
  _y : Z;
  _u : option Z;
  _v : option Z;
  _size : nat
}.

Definition invalid_curve : exn :=
  ValueError "ValueError: invalid parameters of the elliptic curve".

(** The nested function [gcdex] of [_invert]; the recursion depth is
    bounded by [fuel]. *)
Fixpoint gcdex (fuel : nat) (value n_mod : Z) : result (Z * Z * Z) :=
  match fuel with
  | O => OutOfFuel
  | S fuel' =>
      if n_mod =? 0 then Ok (value, 1, 0)
      else
        '(gcd, x_value, y_value) ← gcdex fuel' n_mod (value mod n_mod);
        Ok (gcd, y_value, x_value - y_value * (value / n_mod))
  end.

Definition _invert (fuel : nat) (value n_mod : Z) : result Z :=
  '(_, res, _) ← gcdex fuel value n_mod;
  Ok (if res <? 0 then res + n_mod else res).

(** [_add] takes the curve from [self]: the field [_p], the coefficient
    [_a] and the coordinate width [_size]. *)
Definition _add (fuel : nat) (self : GOST34102012) (x_1 x_2 y_1 y_2 : Z)
  : result (Z * Z) :=
  bx_1 ← int_to_bytearray x_1 (_size self);
  bx_2 ← int_to_bytearray x_2 (_size self);
  let compare_x := compare bx_1 bx_2 in
  by_1 ← int_to_bytearray y_1 (_size self);
  by_2 ← int_to_bytearray y_2 (_size self);
  let compare_y := compare by_1 by_2 in
  grad ← (if compare_x && compare_y
          then
            inv ← _invert fuel (2 * y_1) (_p self);
            pymod ((3 * x_1 * x_1 + _a self) * inv) (_p self)
          else
            d_x ← pymod (x_2 - x_1) (_p self);
            d_y ← pymod (y_2 - y_1) (_p self);
            inv ← _invert fuel d_x (_p self);
            pymod (d_y * inv) (_p self));
  x_3 ← pymod (grad * grad - x_1 - x_2) (_p self);
  y_3 ← pymod (grad * (x_1 - x_3) - y_1) (_p self);
  Ok (x_3, y_3).

(** Truth value of an integer: [0] is false. *)
Definition truthy (v : Z) : bool := negb (v =? 0).

(** The loop [for bit in self._bits(mul_value)] of [_mul_point], with the
    generator [_bits] inlined: the generator stops when [value] is zero. *)
Fixpoint mul_point_loop (fuel : nat) (add : Z -> Z -> Z -> Z -> result (Z * Z))
  (value x_prev y_prev x_next y_next : Z) : result (Z * Z) :=
  match fuel with
  | O => OutOfFuel
  | S fuel' =>
      if value =? 0 then Ok (x_next, y_next)
      else
        let bit := Z.land value 1 in
        '(x_next, y_next) ← (if bit =? 1 then add x_next x_prev y_next y_prev
                             else Ok (x_next, y_next));
        '(x_prev, y_prev) ← add x_prev x_prev y_prev y_prev;
        mul_point_loop fuel' add (Z.shiftr value 1) x_prev y_prev x_next y_next
  end.

(** [_mul_point(mul_value, x_op, y_op)]; the callers pass both
    coordinates or neither. *)
Definition _mul_point (fuel : nat) (self : GOST34102012) (mul_value : Z)
  (op : option (Z * Z)) : result (Z * Z) :=
  let mul_value := mul_value - 1 in
  let '(x_prev, y_prev) :=
    match op with
    | Some (x_op, y_op) =>
        if truthy x_op || truthy y_op then (x_op, y_op)
        else (_x self, _y self)
    | None => (_x self, _y self)
    end in
  mul_point_loop fuel (_add fuel self) mul_value x_prev y_prev x_prev y_prev.

(** [_edvards_to_canonical]: returns the new [(a, b, x, y)]. *)
Definition _edvards_to_canonical (fuel : nat) (p : Z) (e d u v : option Z)
  : result (Z * Z * Z * Z) :=
  match e, d with
  | Some e, Some d =>
      inv4 ← _invert fuel 4 p;
      ed_s ← pymod ((e - d) * inv4) p;
      inv6 ← _invert fuel 6 p;
      ed_t ← pymod ((e + d) * inv6) p;
      a ← pymod (ed_s ^ 2 - 3 * ed_t ^ 2) p;
      b ← pymod (2 * ed_t ^ 3 - ed_t * ed_s ^ 2) p;
      match v with
      | Some v =>
          inv1 ← _invert fuel (1 - v) p;
          x ← pymod (ed_s * (1 + v) * inv1 + ed_t) p;
          match u with
          | Some u =>
              inv2 ← _invert fuel ((1 - v) * u) p;
              y ← pymod (ed_s * (1 + v) * inv2) p;
              Ok (a, b, x, y)
          | None => Raise TypeError
          end
      | None => Raise TypeError
      end
  | _, _ => Raise TypeError
  end.

(** [for i in idx: body(i)] where the body only raises. *)
Fixpoint for_each (idx : list nat) (body : nat -> result unit) : result unit :=
  match idx with
  | [] => Ok tt
  | i :: idx' => _ ← body i; for_each idx' body
  end.

(** [GOST34102012.__init__(mode, p=.., a=.., ...)].  The mapping entries
    [p], [m] and [q] are integers; the others may be [None]. *)
Definition __init__ (fuel : nat) (mode : Z) (p : Z) (a b e d : option Z)
  (m q : Z) (x y u v : option Z) : result GOST34102012 :=
  if negb ((mode =? MODE_256) || (mode =? MODE_512))
  then Raise (ValueError "ValueError: unsupported signature mode")
  else
    '(a, b, x, y) ← match a, b, x, y with
                    | Some a, Some b, Some x, Some y => Ok (a, b, x, y)
                    | _, _, _, _ => _edvards_to_canonical fuel p e d u v
                    end;
    if m =? p then Raise invalid_curve
    else
      size ← (if mode =? MODE_256 then
                _ ← for_each (seq 1 31) (fun i =>
                      l ← pymod (p ^ Z.of_nat i) q;
                      r ← pymod 1 q;
                      if l =? r then Raise invalid_curve else Ok tt);
                if (q <? 2 ^ 254) || (q >? 2 ^ 256) then Raise invalid_curve
                else Ok 32%nat
              else
                _ ← for_each (seq 1 131) (fun i =>
                      l ← pymod (p ^ 1) q;
                      r ← pymod 1 q;
                      if l =? r then Raise invalid_curve else Ok tt);
                if (q <? 2 ^ 508) || (q >? 2 ^ 512) then Raise invalid_curve
                else Ok 64%nat);
      right_side_equation ← pymod (y * y) p;
      left_side_equation ← pymod (x ^ 3 + x * a + b) p;
      if negb (right_side_equation =? left_side_equation)
      then Raise invalid_curve
      else Ok (mkGOST34102012 p a b e d m q x y u v size).

(** [curve[k]] on the curve mapping. *)
Definition dict_get (curve : gmap string Z) (k : string) : result Z :=
  match curve !! k with
  | Some v => Ok v
  | None => Raise (KeyError k)
  end.

(** [k in curve] *)
Definition has_key (curve : gmap string Z) (k : string) : bool :=
  bool_decide (is_Some (curve !! k)).

Definition is_edvards_and_canonical (curve : gmap string Z) : bool :=
  has_key curve "e" && has_key curve "d" && has_key curve "u"
  && has_key curve "v" && has_key curve "x" && has_key curve "y"
  && has_key curve "a" && has_key curve "b".

Definition is_edvards_only (curve : gmap string Z) : bool :=
  has_key curve "e" && has_key curve "d" && has_key curve "u"
  && has_key curve "v" && negb (has_key curve "x")
  && negb (has_key curve "y") && negb (has_key curve "a")
  && negb (has_key curve "b").

Definition is_canonical_only (curve : gmap string Z) : bool :=
  negb (has_key curve "e") && negb (has_key curve "d")
  && negb (has_key curve "u") && negb (has_key curve "v")
  && has_key curve "x" && has_key curve "y" && has_key curve "a"
  && has_key curve "b".

(** The body of the [try] block of [new]: the binding of the local
    [result], [None] while it is unassigned. *)
Definition new_try (fuel : nat) (mode : Z) (curve : gmap string Z)
  : result (option GOST34102012) :=
  if is_edvards_and_canonical curve then
    p ← dict_get curve "p"; a ← dict_get curve "a"; b ← dict_get curve "b";
    e ← dict_get curve "e"; d ← dict_get curve "d"; m ← dict_get curve "m";
    q ← dict_get curve "q"; x ← dict_get curve "x"; y ← dict_get curve "y";
    u ← dict_get curve "u"; v ← dict_get curve "v";
    self ← __init__ fuel mode p (Some a) (Some b) (Some e) (Some d) m q
             (Some x) (Some y) (Some u) (Some v);
    Ok (Some self)
  else if is_edvards_only curve then
    p ← dict_get curve "p"; e ← dict_get curve "e"; d ← dict_get curve "d";
    m ← dict_get curve "m"; q ← dict_get curve "q";
    u ← dict_get curve "u"; v ← dict_get curve "v";
    self ← __init__ fuel mode p None None (Some e) (Some d) m q
             None None (Some u) (Some v);
    Ok (Some self)
  else if is_canonical_only curve then
    p ← dict_get curve "p"; a ← dict_get curve "a"; b ← dict_get curve "b";
    m ← dict_get curve "m"; q ← dict_get curve "q";
    x ← dict_get curve "x"; y ← dict_get curve "y";
    self ← __init__ fuel mode p (Some a) (Some b) None None m q
             (Some x) (Some y) None None;
    Ok (Some self)
  else Ok None.

(** [new(mode, curve)]: a [ValueError] of the constructor is printed and
    turned into [sys.exit()]; [return result] needs [result] bound. *)
Definition new (fuel : nat) (mode : Z) (curve : gmap string Z)
  : result GOST34102012 :=
  match new_try fuel mode curve with
  | Raise (ValueError _) => Raise SystemExit
  | Raise e => Raise e
  | OutOfFuel => OutOfFuel
  | Ok None => Raise (UnboundLocalError "result")
  | Ok (Some self) => Ok self
  end.

(** *** The object store

    [sign] receives a reference to the caller's key buffer.  Buffers live
    in a store indexed by location; a local variable holds a location. *)

Abbreviation loc := nat.
Abbreviation store := (gmap nat bytes).

(** Binding a variable to a newly created buffer. *)
Definition alloc (h : store) (v : bytes) : loc * store :=
  let l := fresh (dom h) in (l, <[l := v]> h).

(** The contents of the buffer a variable is bound to. *)
Definition deref (h : store) (l : loc) : bytes := default [] (h !! l).

(** The locals of [sign] that its loops update. *)
Record sign_locals : Type := mkLocals {
  var_private_key : loc;
  var_sign_r : Z;
  var_sign_s : Z;
  var_sign_k : Z;
  var_drawn : nat
}.

(** [os.urandom] redrawn while the value is not below [q]. *)
Fixpoint draw_rand_k (fuel : nat) (urandom : nat -> bytes) (q : Z) (n : nat)
  : result (bytes * nat) :=
  match fuel with
  | O => OutOfFuel
  | S fuel' =>
      let sign_rand_k := urandom n in
      if bytearray_to_int sign_rand_k >=? q
      then draw_rand_k fuel' urandom q (S n)
      else Ok (sign_rand_k, S n)
  end.

(** The inner loop of [sign]:
    [while compare_to_zero(int_to_bytearray(sign_r, self._size))]. *)
Fixpoint sign_inner (fuel : nat) (self : GOST34102012)
  (rand_k : option bytes) (urandom : nat -> bytes)
  (h : store) (st : sign_locals) : result sign_locals * store :=
  match fuel with
  | O => (OutOfFuel, h)
  | S fuel' =>
      match int_to_bytearray (var_sign_r st) (_size self) with
      | Raise e => (Raise e, h)
      | OutOfFuel => (OutOfFuel, h)
      | Ok br =>
          if negb (compare_to_zero br) then (Ok st, h)
          else
            match rand_k with
            | Some rk =>
                if negb (length rk =? _size self)%nat then
                  let '(l, h) :=
                    alloc h (zero_fill (length (deref h (var_private_key st)))) in
                  (Raise (ValueError "ValueError: invalid random value size"), h)
                else
                  let sign_k := bytearray_to_int rk in
                  match
                    (sign_c ← _mul_point fuel self sign_k None;
                     pymod (fst sign_c) (_q self))
                  with
                  | Ok r =>
                      sign_inner fuel' self rand_k urandom h
                        (mkLocals (var_private_key st) r (var_sign_s st) sign_k
                           (var_drawn st))
                  | Raise e => (Raise e, h)
                  | OutOfFuel => (OutOfFuel, h)
                  end
            | None =>
                match draw_rand_k fuel urandom (_q self) (var_drawn st) with
                | Ok (sign_rand_k, n) =>
                    let sign_k := bytearray_to_int sign_rand_k in
                    match
                      (sign_c ← _mul_point fuel self sign_k None;
                       pymod (fst sign_c) (_q self))
                    with
                    | Ok r =>
                        sign_inner fuel' self rand_k urandom h
                          (mkLocals (var_private_key st) r (var_sign_s st) sign_k n)
                    | Raise e => (Raise e, h)
                    | OutOfFuel => (OutOfFuel, h)
                    end
                | Raise e => (Raise e, h)
                | OutOfFuel => (OutOfFuel, h)
                end
            end
      end
  end.

(** The outer loop of [sign]:
    [while compare_to_zero(int_to_bytearray(sign_s, self._size))]. *)
Fixpoint sign_outer (fuel : nat) (self : GOST34102012)
  (rand_k : option bytes) (urandom : nat -> bytes) (sign_e : Z)
  (h : store) (st : sign_locals) : result sign_locals * store :=
  match fuel with
  | O => (OutOfFuel, h)
  | S fuel' =>
      match int_to_bytearray (var_sign_s st) (_size self) with
      | Raise e => (Raise e, h)
      | OutOfFuel => (OutOfFuel, h)
      | Ok bs =>
          if negb (compare_to_zero bs) then (Ok st, h)
          else
            match sign_inner fuel self rand_k urandom h st with
            | (Ok st, h) =>
                match
                  pymod (var_sign_r st * bytearray_to_int (deref h (var_private_key st))
                         + var_sign_k st * sign_e) (_q self)
                with
                | Ok s =>
                    sign_outer fuel' self rand_k urandom sign_e h
                      (mkLocals (var_private_key st) (var_sign_r st) s (var_sign_k st)
                         (var_drawn st))
                | Raise e => (Raise e, h)
                | OutOfFuel => (OutOfFuel, h)
                end
            | (Raise e, h) => (Raise e, h)
            | (OutOfFuel, h) => (OutOfFuel, h)
            end
      end
  end.

(** [sign(private_key, digest, rand_k)]: [private_key] is the location of
    the caller's buffer; the store after the call is returned with the
    outcome. *)
Definition sign (fuel : nat) (self : GOST34102012) (urandom : nat -> bytes)
  (h : store) (private_key : loc) (digest : bytes) (rand_k : option bytes)
  : result bytes * store :=
  if negb (length (deref h private_key) =? _size self)%nat
  then (Raise (ValueError "ValueError: invalid private key size"), h)
  else
    match
      (sign_e ← pymod (bytearray_to_int digest) (_q self);
       be ← int_to_bytearray sign_e (_size self);
       Ok (if compare_to_zero be then 1 else sign_e))
    with
    | Raise e => (Raise e, h)
    | OutOfFuel => (OutOfFuel, h)
    | Ok sign_e =>
        match
          sign_outer fuel self rand_k urandom sign_e h
            (mkLocals private_key 0 0 0 0)
        with
        | (Ok st, h) =>
            match
              (r ← int_to_bytearray (var_sign_r st) (_size self);
               s ← int_to_bytearray (var_sign_s st) (_size self);
               Ok (r, s))
            with
            | Ok (r, s) =>
                let '(l, h) :=
                  alloc h (zero_fill (length (deref h (var_private_key st)))) in
                (Ok (r ++ s), h)
            | Raise e => (Raise e, h)
            | OutOfFuel => (OutOfFuel, h)
            end
        | (Raise e, h) => (Raise e, h)
        | (OutOfFuel, h) => (OutOfFuel, h)
        end
    end.

Definition verify (fuel : nat) (self : GOST34102012)
  (public_key digest signature : bytes) : result bool :=
  if negb (length signature =? _size self * 2)%nat
  then Raise (ValueError "ValueError: invalid signature size")
  else
    let public_key :=
      (bytearray_to_int (take (_size self) public_key),
       bytearray_to_int (drop (_size self) public_key)) in
    let sign_r := bytearray_to_int (take (_size self) signature) in
    let sign_s := bytearray_to_int (drop (_size self) signature) in
    if (sign_r <=? 0) || (sign_r >=? _q self) || (sign_s <=? 0)
       || (sign_s >=? _q self)
    then Ok false
    else
      sign_e ← pymod (bytearray_to_int digest) (_q self);
      be ← int_to_bytearray sign_e (_size self);
      let sign_e := if compare_to_zero be then 1 else sign_e in
      sign_v ← _invert fuel sign_e (_q self);
      sign_z_1 ← pymod (sign_s * sign_v) (_q self);
      rv ← pymod (sign_r * sign_v) (_q self);
      let sign_z_2 := _q self - rv in
      sign_p ← _mul_point fuel self sign_z_1 None;
      sign_q ← _mul_point fuel self sign_z_2 (Some public_key);
      sign_c ← _add fuel self (fst sign_p) (fst sign_q) (snd sign_p)
                 (snd sign_q);
      sign_r_check ← pymod (fst sign_c) (_q self);
      b1 ← int_to_bytearray sign_r_check (_size self);
      b2 ← int_to_bytearray sign_r (_size self);
      Ok (compare b1 b2).

(** [public_key_generate(private_key)]: the local [private_key] is rebound
    to integers, which are not buffers; the store is returned as it is. *)
Definition public_key_generate (fuel : nat) (self : GOST34102012)
  (h : store) (private_key : loc) : result bytes * store :=
  if negb (length (deref h private_key) =? _size self)%nat
  then (Raise (ValueError "ValueError: invalid private key size"), h)
  else
    let private_key := bytearray_to_int (deref h private_key) in
    (public_key ← _mul_point fuel self private_key None;
     public_key_x ← int_to_bytearray (fst public_key) (_size self);
     public_key_y ← int_to_bytearray (snd public_key) (_size self);
     let private_key := 0 in
     Ok (public_key_x ++ public_key_y), h).

End gostsignature.

(** * Auxiliary definitions for the statements *)

Module gosthash_spec.

Import utils gosthash.

(** The index map of [_TAU] and the permutation it induces. *)
Definition tau (i : nat) : nat := default 0%nat (_TAU !! i).

Definition permute (data : bytes) : bytes :=
  map (fun i => default 0 (data !! tau i)) (seq 0 _BLOCK_SIZE).

(** Ripple-carry addition of two little-endian byte strings; [c] is the
    value of [op_c] left by the previous position. *)
Fixpoint add_rec (a b : bytes) (c : Z) : bytes :=
  match a, b with
  | x :: a', y :: b' =>
      let s := x + y + Z.shiftr c 8 in
      Z.land s 0xff :: add_rec a' b' s
  | _, _ => []
  end.

(** The hasher states a client can reach through the interface: the
    constructor, [update] and [reset].  ([copy] returns an equal state and
    [digest] works on a copy.) *)
Inductive reachable : GOST34112012 -> Prop :=
| reachable_new name data s :
    new name data = Ok s -> reachable s
| reachable_update s data s' :
    reachable s -> update s data = Ok s' -> reachable s'
| reachable_reset s :
    reachable s -> reachable (reset s).

(** [h = new(name); h.update(a); h.update(b); h.digest()] *)
Definition digest_incremental (name : string) (a b : bytes) : result bytes :=
  s ← new name [];
  s ← update s a;
  s ← update s b;
  digest s.

(** [h = new(name); h.update(x); h.digest()] *)
Definition digest_one_shot (name : string) (x : bytes) : result bytes :=
  s ← new name [];
  s ← update s x;
  digest s.

(** The sum of the little-endian values of the blocks at the offsets
    [idx] of [data]. *)
Definition blocks_sum (data : bytes) (idx : list nat) : Z :=
  foldr (fun i acc => le_int (slice data i (i + _BLOCK_SIZE)) + acc) 0 idx.

(** The offsets of the whole blocks of [data]:
    [range(0, len(data) // 64 * 64, 64)]. *)
Definition block_offsets (data : bytes) : list nat :=
  map (fun j => (j * _BLOCK_SIZE)%nat) (seq 0 (length data / _BLOCK_SIZE)).

(** The state of [new('streebog256', b'\x01\x02\x03')], and the state
    after [update] with 61 more bytes, which completes a block. *)
Definition buffered_state : GOST34112012 :=
  mkGOST34112012 "streebog256" [1; 2; 3] 0 61
    (replicate 64 1) (replicate 64 0) (replicate 64 0).

Definition block_state : GOST34112012 :=
  Eval vm_compute in
    match update buffered_state (replicate 61 0) with
    | Ok s => s
    | _ => buffered_state
    end.

(** The effect of the block loop of [update] on [(h, n, sigma)], for a
    list of blocks. *)
Fixpoint absorb (blocks : list bytes) (t : bytes * bytes * bytes)
  : result (bytes * bytes * bytes) :=
  match blocks with
  | [] => Ok t
  | block :: blocks' =>
      let '(h, n, sigma) := t in
      h' ← _hash_g h n block;
      n' ← _hash_add_512 n _V_512;
      sigma' ← _hash_add_512 sigma block;
      absorb blocks' (h', n', sigma')
  end.

(** The whole blocks of [data], in order. *)
Definition whole_blocks (data : bytes) : list bytes :=
  map (fun i => slice data i (i + _BLOCK_SIZE)) (block_offsets data).

(** A 64-byte array. *)
Definition is_block (l : bytes) : Prop :=
  length l = 64%nat /\ bytes_ok l = true.

(** [S_BOX[d]] *)
Definition sbox (d : Z) : Z := default 0 (S_BOX !! Z.to_nat d).

(** The invariant of a hasher fed with bytes. *)
Definition state_ok (s : GOST34112012) : Prop :=
  is_block (_hash_h s) /\ is_block (_hash_n s) /\ is_block (_hash_sigma s) /\
  (length (_buff s) < 64)%nat /\ bytes_ok (_buff s) = true.

(** The hasher states reachable through the interface when every
    argument is a byte string. *)
Inductive fed_with_bytes : GOST34112012 -> Prop :=
| fed_new name data s :
    bytes_ok data = true -> new name data = Ok s -> fed_with_bytes s
| fed_update s data s' :
    fed_with_bytes s -> bytes_ok data = true -> update s data = Ok s' ->
    fed_with_bytes s'
| fed_reset s :
    fed_with_bytes s -> fed_with_bytes (reset s).

(** [_hash_s] as a map over the positions. *)
Definition substitute (data : bytes) : bytes :=
  map (fun i => sbox (default 0 (data !! i))) (seq 0 _BLOCK_SIZE).

(** The XOR of the rows of [_A] at the positions [idx] that the bits of
    [v] select, from the least significant bit. *)
Fixpoint lane_mix (idx : list nat) (v : Z) : Z :=
  match idx with
  | [] => 0
  | j :: idx' =>
      Z.lxor (if Z.testbit v 0 then default 0 (_A !! j) else 0)
        (lane_mix idx' (Z.shiftr v 1))
  end.

(** The eight little-endian bytes of a 64-bit lane. *)
Definition lane_bytes (v : Z) : bytes :=
  map (fun i => Z.land (Z.shiftr v (8 * Z.of_nat i)) 255) (seq 0 8).

(** [_hash_l] lane by lane. *)
Definition linear_map (data : bytes) : bytes :=
  concat (map (fun i =>
                 lane_bytes (lane_mix (range_down _BLOCK_SIZE)
                               (le_int (slice data (i * 8) (i * 8 + 8)))))
            (seq 0 8)).

End gosthash_spec.

Module gostsignature_spec.

Import utils gostsignature.

(** The curve equation [y^2 = x^3 + a x + b (mod p)] of a context. *)
Definition on_curve (self : GOST34102012) (P : Z * Z) : bool :=
  (snd P * snd P) mod _p self
  =? (fst P ^ 3 + fst P * _a self + _b self) mod _p self.

(** Textbook double-and-add, scanning the scalar from its least
    significant bit: the accumulator [Q] starts at the point at infinity
    ([None]), [R] runs through the doublings of the point.  Additions and
    doublings are those of [_add]. *)
Fixpoint double_and_add (fuel : nat)
  (add : Z -> Z -> Z -> Z -> result (Z * Z))
  (k : Z) (R : Z * Z) (Q : option (Z * Z)) : result (option (Z * Z)) :=
  match fuel with
  | O => OutOfFuel
  | S fuel' =>
      if k =? 0 then Ok Q
      else
        Q ← (if Z.land k 1 =? 1 then
               match Q with
               | None => Ok (Some R)
               | Some Q => S ← add (fst Q) (fst R) (snd Q) (snd R); Ok (Some S)
               end
             else Ok Q);
        R ← add (fst R) (fst R) (snd R) (snd R);
        double_and_add fuel' add (Z.shiftr k 1) R Q
  end.

Definition scalar_multiple (fuel : nat) (self : GOST34102012) (k : Z)
  (P : Z * Z) : result (option (Z * Z)) :=
  double_and_add fuel (_add fuel self) k P None.

(** The context of ['id-tc26-gost-3410-2012-256-paramSetB']. *)
Definition paramSetB_context : GOST34102012 :=
  mkGOST34102012
    0xfffffffffffffffffffffffffffffffffffffffffffffffffffffffffffffd97
    0xfffffffffffffffffffffffffffffffffffffffffffffffffffffffffffffd94
    0xa6 None None
    0xffffffffffffffffffffffffffffffff6c611070995ad10045841b09b761b893
    0xffffffffffffffffffffffffffffffff6c611070995ad10045841b09b761b893
    0x01
    0x8d91e471e0989cda27df505a453f2b7635294f2ddf23e3b122acc99c9e9f1e14
    None None 32.

(** A curve [y^2 = x^3 - 2 x] over the prime field of [2^255 - 19], with
    the base point [(2, 2)]; the origin [(0, 0)] lies on it. *)
Definition curve_through_origin : gmap string Z :=
  <["p" := 2 ^ 255 - 19]>
  (<["a" := 2 ^ 255 - 21]>
  (<["b" := 0]>
  (<["m" := 0x8000000000000000000000000000000150fe8a1892976154c59cfc193accf5b3]>
  (<["q" := 0x8000000000000000000000000000000150fe8a1892976154c59cfc193accf5b3]>
  (<["x" := 2]>
  (<["y" := 2]>
   ∅)))))).

Definition curve_through_origin_context : GOST34102012 :=
  mkGOST34102012 (2 ^ 255 - 19) (2 ^ 255 - 21) 0 None None
    0x8000000000000000000000000000000150fe8a1892976154c59cfc193accf5b3
    0x8000000000000000000000000000000150fe8a1892976154c59cfc193accf5b3
    2 2 None None 32.

(** [r] raises nothing but exceptions satisfying [P]. *)
Definition raises_only {A : Type} (P : exn -> Prop) (r : result A) : Prop :=
  forall e, r = Raise e -> P e.

(** The exceptions of the arithmetic helpers: a zero modulus and a
    failure inside [gostcrypto.utils]. *)
Definition arithmetic_exn (e : exn) : Prop :=
  e = ZeroDivisionError \/ exists what, e = UtilsFailure what.

(** [0 < r < q] and [0 < s < q] for the two halves of a signature. *)
Definition signature_in_range (self : GOST34102012) (signature : bytes)
  : bool :=
  let sign_r := bytearray_to_int (take (_size self) signature) in
  let sign_s := bytearray_to_int (drop (_size self) signature) in
  (0 <? sign_r) && (sign_r <? _q self) && (0 <? sign_s)
  && (sign_s <? _q self).

(** The key sets the documentation of [new] names. *)
Definition canonical_keys : gset string :=
  {[ "p"; "a"; "b"; "m"; "q"; "x"; "y" ]}.

Definition edwards_keys : gset string :=
  {[ "p"; "e"; "d"; "m"; "q"; "u"; "v" ]}.

(** The three documented shapes of a curve mapping, read literally:
    exactly the canonical keys, exactly the Edwards keys, or both full
    sets. *)
Definition documented_shape (curve : gmap string Z) : bool :=
  bool_decide (dom curve = canonical_keys)
  || bool_decide (dom curve = edwards_keys)
  || bool_decide (canonical_keys ∪ edwards_keys ⊆ dom curve).

(** None of the three tests of [new] holds. *)
Definition no_shape_test (curve : gmap string Z) : bool :=
  negb (is_edvards_and_canonical curve || is_edvards_only curve
        || is_canonical_only curve).

(** The exceptions of [__init__]. *)
Definition init_exn (e : exn) : Prop :=
  arithmetic_exn e \/ e = TypeError \/ exists msg, e = ValueError msg.

(** The exceptions of the [try] block of [new]. *)
Definition new_try_exn (e : exn) : Prop :=
  init_exn e \/ exists key, e = KeyError key.

(** The embedding-degree test as [__init__] performs it. *)
Definition guard_holds (mode p q : Z) : Prop :=
  if mode =? MODE_256
  then forall i : nat, (1 <= i <= 31)%nat -> p ^ Z.of_nat i mod q <> 1 mod q
  else p ^ 1 mod q <> 1 mod q.

(** The test of the subgroup order as [__init__] performs it. *)
Definition order_accepted (mode q : Z) : Prop :=
  if mode =? MODE_256 then 2 ^ 254 <= q <= 2 ^ 256
  else 2 ^ 508 <= q <= 2 ^ 512.

Definition size_of_mode (mode : Z) : nat :=
  if mode =? MODE_256 then 32%nat else 64%nat.

(** [p^1 mod q, ..., p^n mod q] by repeated modular multiplication,
    starting from [acc = p^0 mod q]. *)
Fixpoint pow_mods (p q acc : Z) (n : nat) : list Z :=
  match n with
  | O => []
  | S n' => let acc' := (acc * p) mod q in acc' :: pow_mods p q acc' n'
  end.

Definition guard_256 (p q : Z) : bool :=
  forallb (fun r => negb (r =? 1 mod q)) (pow_mods p q 1 31).

(** The exceptions of [new]. *)
Definition new_exn (e : exn) : Prop :=
  e = SystemExit \/ e = UnboundLocalError "result" \/ e = TypeError \/
  (exists key, e = KeyError key) \/ arithmetic_exn e.

(** The number [sign] and [verify] take for the digest: its value modulo
    [q], with 1 in place of 0. *)
Definition digest_value (self : GOST34102012) (digest : bytes) : Z :=
  let e := bytearray_to_int digest mod _q self in
  if e =? 0 then 1 else e.

End gostsignature_spec.

(** * Properties of the Streebog hasher *)

Module gosthash_facts.

Import utils gosthash gosthash_spec.

Lemma getitem_lookup {A : Type} (l : list A) (i : nat) (x : A) :
  l !! i = Some x -> getitem l i = Ok x.
Proof. unfold getitem. by intros ->. Qed.

(** A [for] loop over [range(n - 1, -1, -1)] that fills a preallocated
    array of length [n] leaves the array of the values written. *)
Lemma for_fill_down_prefix (f : nat -> result Z) (g : nat -> Z) (k : nat) :
  forall res : bytes,
    (k <= length res)%nat ->
    (forall i, (i < k)%nat -> f i = Ok (g i)) ->
    for_fill (range_down k) f res = Ok (map g (seq 0 k) ++ drop k res).
Proof.
  unfold range_down.
  induction k as [|k IH]; intros res Hlen Hf.
  - simpl. by rewrite drop_0.
  - rewrite seq_S, rev_app_distr. simpl.
    rewrite (Hf k) by lia. simpl.
    rewrite IH.
    + rewrite map_app. simpl. rewrite <- app_assoc. simpl.
      do 2 f_equal.
      destruct (lookup_lt_is_Some_2 res k ltac:(lia)) as [x Hx].
      rewrite drop_insert_ge by lia.
      rewrite Nat.sub_diag.
      rewrite (drop_S res x k Hx). reflexivity.
    + rewrite length_insert. lia.
    + intros i Hi. apply Hf. lia.
Qed.

Lemma for_fill_down (f : nat -> result Z) (g : nat -> Z) (n : nat)
  (res : bytes) :
  length res = n ->
  (forall i, (i < n)%nat -> f i = Ok (g i)) ->
  for_fill (range_down n) f res = Ok (map g (seq 0 n)).
Proof.
  intros Hlen Hf.
  rewrite (for_fill_down_prefix f g n res) by (auto; lia).
  rewrite drop_ge by lia. by rewrite app_nil_r.
Qed.

Lemma below_64 (P : nat -> Prop) :
  Forall P (seq 0 64) -> forall i, (i < 64)%nat -> P i.
Proof.
  intros HP i Hi. rewrite Forall_forall in HP. apply HP.
  apply elem_of_seq. lia.
Qed.

Lemma tau_lookup i : (i < 64)%nat -> _TAU !! i = Some (tau i).
Proof.
  revert i. apply below_64. unfold tau.
  repeat (constructor; [reflexivity|]). constructor.
Qed.

Lemma tau_bound i : (i < 64)%nat -> (tau i < 64)%nat.
Proof.
  revert i. apply below_64.
  repeat (constructor; [vm_compute; lia|]). constructor.
Qed.

Lemma tau_involutive i : (i < 64)%nat -> tau (tau i) = i.
Proof.
  revert i. apply below_64.
  repeat (constructor; [reflexivity|]). constructor.
Qed.

Lemma hash_p_permute (data : bytes) :
  length data = 64%nat -> _hash_p data = Ok (permute data).
Proof.
  intros Hlen. unfold _hash_p, permute.
  apply for_fill_down.
  - apply length_replicate.
  - intros i Hi.
    rewrite (getitem_lookup _ _ _ (tau_lookup i Hi)). simpl.
    destruct (lookup_lt_is_Some_2 data (tau i)) as [x Hx].
    { rewrite Hlen. by apply tau_bound. }
    rewrite (getitem_lookup _ _ _ Hx). by rewrite Hx.
Qed.

Lemma length_permute data : length (permute data) = 64%nat.
Proof. unfold permute. by rewrite length_map, length_seq. Qed.

Lemma lookup_permute data i :
  (i < 64)%nat -> permute data !! i = Some (default 0 (data !! tau i)).
Proof.
  intros Hi. unfold permute.
  rewrite list_lookup_fmap.
  change _BLOCK_SIZE with 64%nat.
  rewrite lookup_seq_lt by done. reflexivity.
Qed.

Lemma permute_involutive (data : bytes) :
  length data = 64%nat -> permute (permute data) = data.
Proof.
  intros Hlen. apply list_eq. intros i.
  destruct (decide (i < 64)%nat) as [Hi|Hi].
  - rewrite lookup_permute by done.
    rewrite lookup_permute by (by apply tau_bound).
    rewrite tau_involutive by done.
    destruct (lookup_lt_is_Some_2 data i) as [x Hx]; [lia|].
    by rewrite Hx.
  - rewrite !lookup_ge_None_2; [done| lia |rewrite length_permute; lia].
Qed.

(** C9: on every 64-byte array [_hash_p] is an involution:
    [_hash_p(_hash_p(x)) = x]; the index table [_TAU] is its own
    inverse. *)
Theorem hash_p_involutive (x : bytes) :
  length x = 64%nat ->
  (y ← _hash_p x; _hash_p y) = Ok x.
Proof.
  intros Hlen.
  rewrite (hash_p_permute x Hlen). simpl.
  rewrite hash_p_permute by apply length_permute.
  by rewrite permute_involutive.
Qed.

Lemma hash_p_involutive_witness :
  let x := map Z.of_nat (seq 0 64) in
  length x = 64%nat /\ (y ← _hash_p x; _hash_p y) = Ok x.
Proof.
  split; [reflexivity|].
  apply hash_p_involutive. reflexivity.
Defined.

(** ** [_hash_add_512] *)

Lemma add_512_loop_add_rec (op_a op_b : bytes) (m : nat) :
  forall (k : nat) (op_c : Z) (res : bytes),
    length op_a = (k + m)%nat ->
    length op_b = (k + m)%nat ->
    length res = (k + m)%nat ->
    add_512_loop (seq k m) op_a op_b op_c res
    = Ok (take k res ++ add_rec (drop k op_a) (drop k op_b) op_c).
Proof.
  induction m as [|m IH]; intros k op_c res Ha Hb Hres; simpl.
  - rewrite take_ge by lia. rewrite (drop_ge op_a) by lia.
    by rewrite app_nil_r.
  - destruct (lookup_lt_is_Some_2 op_a k ltac:(lia)) as [x Hx].
    destruct (lookup_lt_is_Some_2 op_b k ltac:(lia)) as [y Hy].
    rewrite (getitem_lookup _ _ _ Hx), (getitem_lookup _ _ _ Hy). simpl.
    rewrite IH by (rewrite ?length_insert; lia).
    rewrite (drop_S _ _ _ Hx), (drop_S _ _ _ Hy). simpl.
    erewrite take_S_r by (apply list_lookup_insert_eq; lia).
    rewrite take_insert_ge by lia.
    by rewrite <- app_assoc.
Qed.

Lemma length_add_rec (a b : bytes) :
  forall c, length a = length b -> length (add_rec a b c) = length a.
Proof.
  revert b. induction a as [|x a IH]; intros [|y b] c Hlen; simpl in *;
    try done.
  f_equal. apply IH. lia.
Qed.

Lemma land_255 (s : Z) : Z.land s 255 = s mod 256.
Proof. change 255 with (Z.ones 8). by rewrite Z.land_ones. Qed.

Lemma bytes_ok_add_rec (a b : bytes) :
  forall c, bytes_ok (add_rec a b c) = true.
Proof.
  revert b. induction a as [|x a IH]; intros [|y b] c; simpl; try done.
  rewrite IH, land_255. unfold is_byte.
  pose proof (Z.mod_pos_bound (x + y + Z.shiftr c 8) 256 ltac:(lia)).
  apply andb_true_intro; split; [|done].
  apply andb_true_intro; split; [apply Z.leb_le|apply Z.ltb_lt]; lia.
Qed.

Lemma le_int_add_rec (a b : bytes) :
  forall c,
    length a = length b ->
    le_int (add_rec a b c)
    = (le_int a + le_int b + Z.shiftr c 8) mod 256 ^ Z.of_nat (length a).
Proof.
  revert b. induction a as [|x a IH]; intros [|y b] c Hlen; simpl in *;
    try done.
  - by rewrite Z.mod_1_r.
  - rewrite IH by lia. fold (le_int a) (le_int b).
    set (s := x + y + Z.shiftr c 8).
    rewrite land_255, (Z.shiftr_div_pow2 s 8) by lia.
    change (2 ^ 8) with 256.
    replace (Z.of_nat (S (length a))) with (Z.succ (Z.of_nat (length a)))
      by lia.
    rewrite Z.pow_succ_r by lia.
    replace (x + 256 * le_int a + (y + 256 * le_int b) + Z.shiftr c 8)
      with (s + (le_int a + le_int b) * 256) by (unfold s; lia).
    rewrite Z.rem_mul_r by lia.
    rewrite Z.mod_add, Z.div_add by lia.
    do 3 f_equal. lia.
Qed.

(** C6: for every pair of 64-byte arrays [a] and [b],
    [_hash_add_512(a, b)] returns a 64-byte array whose little-endian
    value is [(le_int a + le_int b) mod 2^512]. *)
Theorem hash_add_512_correct (a b : bytes) :
  length a = 64%nat -> bytes_ok a = true ->
  length b = 64%nat -> bytes_ok b = true ->
  exists r,
    _hash_add_512 a b = Ok r /\
    length r = 64%nat /\ bytes_ok r = true /\
    le_int r = (le_int a + le_int b) mod 2 ^ 512.
Proof.
  intros Ha _ Hb _. unfold _hash_add_512.
  rewrite (add_512_loop_add_rec a b 64 0 0) by done.
  simpl take. rewrite !drop_0. simpl app.
  eexists. split; [reflexivity|].
  split; [by rewrite length_add_rec by lia|].
  split; [apply bytes_ok_add_rec|].
  rewrite le_int_add_rec by lia.
  rewrite Ha. change (Z.shiftr 0 8) with 0.
  rewrite Z.add_0_r. reflexivity.
Qed.

Lemma hash_add_512_correct_witness :
  let a := replicate 64 255 in
  let b := 1 :: replicate 63 0 in
  exists r,
    _hash_add_512 a b = Ok r /\
    length r = 64%nat /\ bytes_ok r = true /\
    le_int r = (le_int a + le_int b) mod 2 ^ 512.
Proof.
  apply hash_add_512_correct; reflexivity.
Defined.

(** ** [update] *)

Lemma update_loop_buff (data : bytes) (idx : list nat) :
  forall s s', update_loop idx data s = Ok s' -> _buff s' = _buff s.
Proof.
  induction idx as [|i idx IH]; intros s s' H; simpl in H.
  - by inversion H.
  - destruct (_hash_g _ _ _); simpl in H; try discriminate.
    destruct (_hash_add_512 (_hash_n s) _V_512); simpl in H;
      try discriminate.
    destruct (_hash_add_512 _ _); simpl in H; try discriminate.
    by rewrite (IH _ _ H).
Qed.

Lemma length_last_bytes {A : Type} (l : list A) (k : nat) :
  (length (last_bytes l k) <= k)%nat.
Proof. unfold last_bytes. rewrite length_drop. lia. Qed.

(** [update] never leaves a full block in the buffer. *)
Lemma update_buff_short (s s' : GOST34112012) (data : bytes) :
  (length (_buff s) < 64)%nat ->
  update s data = Ok s' ->
  (length (_buff s') < 64)%nat.
Proof.
  intros Hs H. unfold update in H.
  destruct (update_loop _ _ _) as [s1| |] eqn:Hloop;
    simpl in H; try discriminate. inversion H as [Hs']. clear H Hs'. simpl.
  apply update_loop_buff in Hloop. simpl in Hloop.
  change (Z.of_nat _BLOCK_SIZE) with 64.
  set (n := Z.of_nat (length (_buff s ++ data))).
  pose proof (Z.mod_pos_bound n 64 ltac:(lia)).
  destruct (Z.ltb_spec (64 - n mod 64) 64).
  - pose proof (length_last_bytes (_buff s ++ data)
                  (Z.to_nat (64 - (64 - n mod 64)))).
    lia.
  - by rewrite Hloop.
Qed.

Lemma reachable_buff_short (s : GOST34112012) :
  reachable s -> (length (_buff s) < 64)%nat.
Proof.
  induction 1 as [name data s H|s data s' _ IH H|s _ _].
  - unfold new in H. destruct (_ || _); [|done].
    unfold init in H. destruct (bool_decide _).
    + inversion H. simpl. lia.
    + eapply update_buff_short; [|exact H]. simpl. lia.
  - by apply (update_buff_short s s' data).
  - simpl. lia.
Qed.

Lemma update_empty_short (s : GOST34112012) :
  (length (_buff s) < 64)%nat ->
  exists s',
    update s [] = Ok s' /\
    _hash_h s' = _hash_h s /\ _hash_n s' = _hash_n s /\
    _hash_sigma s' = _hash_sigma s /\ _buff s' = _buff s.
Proof.
  intros Hs. unfold update. rewrite app_nil_r.
  change _BLOCK_SIZE with 64%nat.
  rewrite Nat.div_small by done. simpl.
  eexists. split; [reflexivity|]. simpl. repeat split.
  rewrite Z.mod_small by lia.
  change (Z.of_nat 64) with 64.
  destruct (Z.ltb_spec (64 - Z.of_nat (length (_buff s))) 64); [|done].
  unfold last_bytes.
  replace (length (_buff s) -
           Z.to_nat (64 - (64 - Z.of_nat (length (_buff s)))))%nat
    with 0%nat by lia.
  apply drop_0.
Qed.

(** C8: on every reachable hasher state, [update(b'')] returns and leaves
    the chaining value [h], the counter [n], the running sum [sigma] and
    the tail buffer [buff] unchanged. *)
Theorem update_empty_identity (s : GOST34112012) :
  reachable s ->
  exists s',
    update s [] = Ok s' /\
    _hash_h s' = _hash_h s /\ _hash_n s' = _hash_n s /\
    _hash_sigma s' = _hash_sigma s /\ _buff s' = _buff s.
Proof.
  intros Hs. apply update_empty_short. by apply reachable_buff_short.
Qed.

Lemma update_empty_identity_witness :
  let s := mkGOST34112012 "streebog512" [1; 2; 3] 0 61
             (replicate 64 0) (replicate 64 0) (replicate 64 0) in
  reachable s /\
  exists s',
    update s [] = Ok s' /\
    _hash_h s' = _hash_h s /\ _hash_n s' = _hash_n s /\
    _hash_sigma s' = _hash_sigma s /\ _buff s' = _buff s.
Proof.
  assert (H : reachable
                (mkGOST34112012 "streebog512" [1; 2; 3] 0 61
                   (replicate 64 0) (replicate 64 0) (replicate 64 0))).
  { apply (reachable_new "streebog512" [1; 2; 3]). reflexivity. }
  split; [exact H|]. apply update_empty_identity. exact H.
Defined.

(** ** Incremental hashing *)

(** When the buffered tail and the new data fill whole blocks exactly,
    [update] leaves [_pad_block_size = 64] and skips the assignment of
    [_buff]: the old tail stays in the buffer and is hashed again. *)
Lemma update_keeps_stale_buff (s s' : GOST34112012) (data : bytes) :
  (length (_buff s ++ data) mod 64 = 0)%nat ->
  update s data = Ok s' ->
  _buff s' = _buff s.
Proof.
  intros Hlen H. unfold update in H.
  destruct (update_loop _ _ _) as [s1| |] eqn:Hloop;
    simpl in H; try discriminate.
  inversion H as [Hs']. clear H Hs'. simpl.
  apply update_loop_buff in Hloop. simpl in Hloop.
  change (Z.of_nat _BLOCK_SIZE) with (Z.of_nat 64).
  rewrite <- Nat2Z.inj_mod, Hlen. simpl. exact Hloop.
Qed.

(** C1 (fails): with [a] of 10 bytes and [b] of 54 bytes, a fresh hasher
    fed [update(a)] then [update(b)] does not return the digest of a fresh
    hasher fed [update(a + b)], for streebog256 and for streebog512; it
    returns the digest of [a + b + a]. *)
Theorem incremental_digest_differs :
  let a := map Z.of_nat (seq 1 10) in
  let b := map Z.of_nat (seq 11 54) in
  (exists d1 d2,
      digest_incremental "streebog256" a b = Ok d1 /\
      digest_one_shot "streebog256" (a ++ b) = Ok d2 /\
      d1 <> d2 /\
      digest_one_shot "streebog256" (a ++ b ++ a) = Ok d1) /\
  (exists d1 d2,
      digest_incremental "streebog512" a b = Ok d1 /\
      digest_one_shot "streebog512" (a ++ b) = Ok d2 /\
      d1 <> d2 /\
      digest_one_shot "streebog512" (a ++ b ++ a) = Ok d1).
Proof.
  split; do 2 eexists;
    (split; [vm_compute; reflexivity|]);
    (split; [vm_compute; reflexivity|]);
    (split; [discriminate|vm_compute; reflexivity]).
Qed.

(** ** Invariants of the hasher state *)

Lemma reachable_buffered_state : reachable buffered_state.
Proof. apply (reachable_new "streebog256" [1; 2; 3]). reflexivity. Qed.

Lemma update_buffered_state :
  update buffered_state (replicate 61 0) = Ok block_state.
Proof. vm_compute. reflexivity. Qed.

(** On every state reachable through the interface the buffered tail is
    shorter than a block. *)
Theorem buffer_below_block_size (s : GOST34112012) :
  reachable s -> (length (_buff s) < 64)%nat.
Proof. apply reachable_buff_short. Qed.

Lemma buffer_below_block_size_witness :
  reachable buffered_state /\ (length (_buff buffered_state) < 64)%nat.
Proof.
  split; [apply reachable_buffered_state|].
  apply buffer_below_block_size, reachable_buffered_state.
Defined.

(** When the buffered tail and the new data make up whole blocks exactly,
    [update] leaves [_buff] as it was: the bytes it has just consumed stay
    in the buffer. *)
Theorem update_aligned_keeps_buffer (s s' : GOST34112012) (data : bytes) :
  (length (_buff s ++ data) mod 64 = 0)%nat ->
  update s data = Ok s' ->
  _buff s' = _buff s.
Proof. apply update_keeps_stale_buff. Qed.

Lemma update_aligned_keeps_buffer_witness :
  (length (_buff buffered_state ++ replicate 61 0%Z) mod 64 = 0)%nat /\
  update buffered_state (replicate 61 0) = Ok block_state /\
  _buff block_state = [1; 2; 3].
Proof.
  split; [reflexivity|]. split; [apply update_buffered_state|].
  apply (update_aligned_keeps_buffer buffered_state block_state
           (replicate 61 0)); [reflexivity|apply update_buffered_state].
Defined.

Lemma update_loop_name (data : bytes) (idx : list nat) :
  forall s s', update_loop idx data s = Ok s' -> _name s' = _name s.
Proof.
  induction idx as [|i idx IH]; intros s s' H; simpl in H.
  - by inversion H.
  - destruct (_hash_g _ _ _); simpl in H; try discriminate.
    destruct (_hash_add_512 (_hash_n s) _V_512); simpl in H;
      try discriminate.
    destruct (_hash_add_512 _ _); simpl in H; try discriminate.
    by rewrite (IH _ _ H).
Qed.

Lemma update_name (s s' : GOST34112012) (data : bytes) :
  update s data = Ok s' -> _name s' = _name s.
Proof.
  unfold update. intros H.
  destruct (update_loop _ _ _) as [s1| |] eqn:Hloop;
    simpl in H; try discriminate.
  inversion H. simpl. by rewrite (update_loop_name _ _ _ _ Hloop).
Qed.

Lemma reachable_name (s : GOST34112012) :
  reachable s -> _name s = "streebog512" \/ _name s = "streebog256".
Proof.
  induction 1 as [name data s H|s data s' _ IH H|s _ IH]; [| |done].
  - unfold new in H.
    destruct (String.eqb_spec name "streebog512") as [->|_];
      [|destruct (String.eqb_spec name "streebog256") as [->|_]];
      simpl in H; try done.
    + unfold init in H. destruct (bool_decide _).
      * inversion H. by left.
      * rewrite (update_name _ _ _ H). by left.
    + unfold init in H. destruct (bool_decide _).
      * inversion H. by right.
      * rewrite (update_name _ _ _ H). by right.
  - by rewrite (update_name _ _ _ H).
Qed.

(** [reset] puts a hasher back into the state of a new hasher of the same
    name without data. *)
Theorem reset_is_fresh (s : GOST34112012) :
  reachable s -> new (_name s) [] = Ok (reset s).
Proof.
  intros Hs. unfold new, init, reset.
  by destruct (reachable_name s Hs) as [-> | ->].
Qed.

Lemma reset_is_fresh_witness :
  reachable buffered_state /\
  new (_name buffered_state) [] = Ok (reset buffered_state).
Proof.
  split; [apply reachable_buffered_state|].
  apply reset_is_fresh, reachable_buffered_state.
Defined.

Lemma hash_add_512_add_rec (a b : bytes) :
  length a = 64%nat -> length b = 64%nat ->
  _hash_add_512 a b = Ok (add_rec a b 0).
Proof.
  intros Ha Hb. unfold _hash_add_512.
  rewrite (add_512_loop_add_rec a b 64 0 0) by done.
  simpl take. by rewrite !drop_0.
Qed.

Lemma le_int_add_512 (a b : bytes) :
  length a = 64%nat -> length b = 64%nat ->
  le_int (add_rec a b 0) = (le_int a + le_int b) mod 2 ^ 512.
Proof.
  intros Ha Hb. rewrite le_int_add_rec by lia. rewrite Ha.
  change (Z.shiftr 0 8) with 0. by rewrite Z.add_0_r.
Qed.

Lemma length_slice_block (data : bytes) (i : nat) :
  (i + 64 <= length data)%nat -> length (slice data i (i + 64)) = 64%nat.
Proof.
  intros H. unfold slice. rewrite length_take, length_drop. lia.
Qed.

Lemma le_int_bound (l : bytes) :
  bytes_ok l = true -> 0 <= le_int l < 256 ^ Z.of_nat (length l).
Proof.
  induction l as [|x l IH]; intros H; [simpl; lia|].
  cbn [bytes_ok forallb] in H.
  apply andb_prop in H as [Hx Hl]. specialize (IH Hl).
  unfold is_byte in Hx. apply andb_prop in Hx as [H0 H1].
  apply Z.leb_le in H0. apply Z.ltb_lt in H1.
  cbn [le_int fold_right length]. fold (le_int l).
  rewrite Nat2Z.inj_succ, Z.pow_succ_r by lia. lia.
Qed.

Lemma update_loop_counters (data : bytes) (idx : list nat) :
  Forall (fun i => (i + 64 <= length data)%nat) idx ->
  forall s s',
    update_loop idx data s = Ok s' ->
    length (_hash_n s) = 64%nat -> bytes_ok (_hash_n s) = true ->
    length (_hash_sigma s) = 64%nat -> bytes_ok (_hash_sigma s) = true ->
    (length (_hash_n s') = 64%nat /\ bytes_ok (_hash_n s') = true /\
     length (_hash_sigma s') = 64%nat /\ bytes_ok (_hash_sigma s') = true) /\
    le_int (_hash_n s')
    = (le_int (_hash_n s) + 512 * Z.of_nat (length idx)) mod 2 ^ 512 /\
    le_int (_hash_sigma s')
    = (le_int (_hash_sigma s) + blocks_sum data idx) mod 2 ^ 512.
Proof.
  induction 1 as [|i idx Hi _ IH]; intros s s' H Hn Hnb Hs Hsb.
  - simpl in H. inversion H; subst. simpl.
    rewrite !Z.add_0_r.
    pose proof (le_int_bound _ Hnb) as Bn. rewrite Hn in Bn.
    pose proof (le_int_bound _ Hsb) as Bs. rewrite Hs in Bs.
    change (256 ^ Z.of_nat 64) with (2 ^ 512) in *.
    by rewrite !Z.mod_small.
  - cbn [update_loop] in H.
    destruct (_hash_g _ _ _) as [h| |]; cbn [mbind result_bind] in H;
      try discriminate.
    rewrite (hash_add_512_add_rec (_hash_n s) _V_512) in H by done.
    rewrite (hash_add_512_add_rec (_hash_sigma s)) in H
      by (try done; by apply length_slice_block).
    cbn [mbind result_bind] in H.
    apply IH in H; cbn [_hash_n _hash_sigma] in *.
    + destruct H as (Hlen & Hn' & Hs'). split; [done|].
      rewrite Hn', Hs'. rewrite !le_int_add_512
        by (try done; by apply length_slice_block).
      change (le_int _V_512) with 512. cbn [length blocks_sum foldr].
      rewrite !Zplus_mod_idemp_l. unfold blocks_sum. split; f_equal; lia.
    + by rewrite length_add_rec.
    + apply bytes_ok_add_rec.
    + rewrite length_add_rec; [done|].
      rewrite length_slice_block; done.
    + apply bytes_ok_add_rec.
Qed.

Lemma block_offsets_in_range (data : bytes) :
  Forall (fun i => (i + 64 <= length data)%nat) (block_offsets data).
Proof.
  unfold block_offsets. apply Forall_forall. intros i Hi.
  apply list_elem_of_fmap in Hi as (j & -> & Hj).
  apply elem_of_seq in Hj. change _BLOCK_SIZE with 64%nat in *.
  pose proof (Nat.Div0.mul_div_le (length data) 64).
  lia.
Qed.

Lemma update_counters (s s' : GOST34112012) (data : bytes) :
  length (_hash_n s) = 64%nat -> bytes_ok (_hash_n s) = true ->
  length (_hash_sigma s) = 64%nat -> bytes_ok (_hash_sigma s) = true ->
  update s data = Ok s' ->
  (length (_hash_n s') = 64%nat /\ bytes_ok (_hash_n s') = true /\
   length (_hash_sigma s') = 64%nat /\ bytes_ok (_hash_sigma s') = true) /\
  le_int (_hash_n s')
  = (le_int (_hash_n s)
     + 512 * Z.of_nat (length (_buff s ++ data) / 64)) mod 2 ^ 512 /\
  le_int (_hash_sigma s')
  = (le_int (_hash_sigma s)
     + blocks_sum (_buff s ++ data) (block_offsets (_buff s ++ data)))
    mod 2 ^ 512.
Proof.
  intros Hn Hnb Hs Hsb H. unfold update in H.
  destruct (update_loop _ _ _) as [s1| |] eqn:Hloop;
    simpl in H; try discriminate.
  inversion H as [Hs']. clear H Hs'. cbn [_hash_n _hash_sigma].
  apply update_loop_counters in Hloop; try done.
  - destruct Hloop as (Hlen & -> & ->). cbn [_hash_n _hash_sigma].
    by rewrite length_map, length_seq.
  - apply block_offsets_in_range.
Qed.

Lemma reachable_counters (s : GOST34112012) :
  reachable s ->
  length (_hash_n s) = 64%nat /\ bytes_ok (_hash_n s) = true /\
  length (_hash_sigma s) = 64%nat /\ bytes_ok (_hash_sigma s) = true.
Proof.
  induction 1 as [name data s H|s data s' _ IH H|s _ IH]; [| |done].
  - unfold new in H. destruct (_ || _); [|done].
    unfold init in H. destruct (bool_decide _).
    + by inversion H.
    + apply update_counters in H; [by destruct H|done..].
  - destruct IH as (? & ? & ? & ?).
    apply update_counters in H; [by destruct H|done..].
Qed.

(** [update] advances the bit counter [n] by 512 for each block it
    consumes, modulo [2^512]. *)
Theorem update_advances_counter (s s' : GOST34112012) (data : bytes) :
  reachable s ->
  update s data = Ok s' ->
  le_int (_hash_n s')
  = (le_int (_hash_n s)
     + 512 * Z.of_nat (length (_buff s ++ data) / 64)) mod 2 ^ 512.
Proof.
  intros Hs H. destruct (reachable_counters s Hs) as (? & ? & ? & ?).
  apply update_counters in H; [by destruct H as (_ & ? & _)|done..].
Qed.

Lemma update_advances_counter_witness :
  reachable buffered_state /\
  update buffered_state (replicate 61 0) = Ok block_state /\
  le_int (_hash_n block_state) = 512.
Proof.
  split; [apply reachable_buffered_state|].
  split; [apply update_buffered_state|].
  rewrite (update_advances_counter buffered_state block_state
             (replicate 61 0) reachable_buffered_state
             update_buffered_state).
  reflexivity.
Defined.

(** [update] adds the little-endian value of each block it consumes to
    the running sum [sigma], modulo [2^512]. *)
Theorem update_accumulates_sigma (s s' : GOST34112012) (data : bytes) :
  reachable s ->
  update s data = Ok s' ->
  le_int (_hash_sigma s')
  = (le_int (_hash_sigma s)
     + blocks_sum (_buff s ++ data) (block_offsets (_buff s ++ data)))
    mod 2 ^ 512.
Proof.
  intros Hs H. destruct (reachable_counters s Hs) as (? & ? & ? & ?).
  apply update_counters in H; [by destruct H as (_ & _ & ?)|done..].
Qed.

Lemma update_accumulates_sigma_witness :
  reachable buffered_state /\
  update buffered_state (replicate 61 0) = Ok block_state /\
  le_int (_hash_sigma block_state) = le_int ([1; 2; 3] ++ replicate 61 0).
Proof.
  split; [apply reachable_buffered_state|].
  split; [apply update_buffered_state|].
  rewrite (update_accumulates_sigma buffered_state block_state
             (replicate 61 0) reachable_buffered_state
             update_buffered_state).
  vm_compute. reflexivity.
Defined.

(** ** Incremental hashing, where it agrees *)

Lemma update_loop_absorb (data : bytes) (idx : list nat) :
  forall s,
    update_loop idx data s
    = ('(h, n, sigma) ←
         absorb (map (fun i => slice data i (i + _BLOCK_SIZE)) idx)
           (_hash_h s, _hash_n s, _hash_sigma s);
       Ok (mkGOST34112012 (_name s) (_buff s) (_num_block s)
             (_pad_block_size s) h n sigma)).
Proof.
  induction idx as [|i idx IH]; intros s.
  - by destruct s.
  - cbn [update_loop map absorb].
    destruct (_hash_g _ _ _) as [h| |]; cbn [mbind result_bind];
      [|done|done].
    destruct (_hash_add_512 (_hash_n s) _V_512) as [n| |];
      cbn [mbind result_bind]; [|done|done].
    destruct (_hash_add_512 (_hash_sigma s) _) as [sigma| |];
      cbn [mbind result_bind]; [|done|done].
    by rewrite IH.
Qed.

Lemma absorb_app (l1 l2 : list bytes) :
  forall t, absorb (l1 ++ l2) t = (t' ← absorb l1 t; absorb l2 t').
Proof.
  induction l1 as [|b l1 IH]; intros [[h n] sigma]; [done|].
  cbn [app absorb].
  destruct (_hash_g _ _ _); cbn [mbind result_bind]; [|done|done].
  destruct (_hash_add_512 n _V_512); cbn [mbind result_bind]; [|done|done].
  destruct (_hash_add_512 sigma b); cbn [mbind result_bind]; [|done|done].
  apply IH.
Qed.

Lemma whole_blocks_lookup (data : bytes) (j : nat) :
  whole_blocks data !! j
  = if decide (j < length data / 64)%nat
    then Some (slice data (j * 64) (j * 64 + 64))
    else None.
Proof.
  unfold whole_blocks, block_offsets. change _BLOCK_SIZE with 64%nat.
  rewrite !list_lookup_fmap.
  destruct (decide (j < length data / 64)%nat) as [Hj|Hj].
  - by rewrite lookup_seq_lt.
  - by rewrite lookup_seq_ge by lia.
Qed.

Lemma length_whole_blocks (data : bytes) :
  length (whole_blocks data) = (length data / 64)%nat.
Proof.
  unfold whole_blocks, block_offsets.
  by rewrite !length_map, length_seq.
Qed.

Lemma whole_blocks_app (d1 d2 : bytes) :
  whole_blocks (d1 ++ d2)
  = whole_blocks d1
    ++ whole_blocks (drop (64 * (length d1 / 64)) d1 ++ d2).
Proof.
  set (k1 := (length d1 / 64)%nat).
  pose proof (Nat.div_mod_eq (length d1) 64) as Hd1.
  pose proof (Nat.mod_upper_bound (length d1) 64 ltac:(lia)) as Hr1.
  fold k1 in Hd1.
  assert (Htail : drop (64 * k1) d1 ++ d2 = drop (64 * k1) (d1 ++ d2)).
  { by rewrite drop_app_le by lia. }
  assert (Hlen : (length (drop (64 * k1) (d1 ++ d2)) / 64
                  = length (d1 ++ d2) / 64 - k1)%nat).
  { rewrite length_drop.
    replace (length (d1 ++ d2))
      with (k1 * 64 + (length (d1 ++ d2) - 64 * k1))%nat
      by (rewrite length_app; lia).
    rewrite Nat.div_add_l by lia.
    replace (k1 * 64 + (length (d1 ++ d2) - 64 * k1) - 64 * k1)%nat
      with (length (d1 ++ d2) - 64 * k1)%nat by lia.
    lia. }
  assert (Hk : (k1 <= length (d1 ++ d2) / 64)%nat).
  { apply Nat.Div0.div_le_mono. rewrite length_app. lia. }
  assert (Hk1 : length (whole_blocks d1) = k1) by apply length_whole_blocks.
  assert (Ek : (length d1 / 64)%nat = k1) by done.
  clearbody k1.
  apply list_eq. intros j.
  destruct (decide (j < k1)%nat) as [Hj|Hj].
  - rewrite lookup_app_l by lia.
    rewrite !whole_blocks_lookup.
    rewrite Ek, !decide_True by lia. f_equal.
    unfold slice. rewrite drop_app_le by lia.
    rewrite take_app_le; [done|]. rewrite length_drop. lia.
  - rewrite lookup_app_r by lia.
    rewrite Hk1, Htail.
    rewrite !whole_blocks_lookup, Hlen.
    destruct (decide (j < length (d1 ++ d2) / 64)%nat).
    + rewrite decide_True by lia. f_equal. unfold slice.
      rewrite drop_drop. f_equal; [lia|]. f_equal. lia.
    + by rewrite decide_False by lia.
Qed.

Lemma update_absorb (s : GOST34112012) (data : bytes) :
  update s data
  = ('(h, n, sigma) ←
       absorb (whole_blocks (_buff s ++ data))
         (_hash_h s, _hash_n s, _hash_sigma s);
     let pad := 64 - Z.of_nat (length (_buff s ++ data)) mod 64 in
     Ok (mkGOST34112012 (_name s)
           (if pad <? 64
            then last_bytes (_buff s ++ data) (Z.to_nat (64 - pad))
            else _buff s)
           (length (_buff s ++ data) / 64) pad h n sigma)).
Proof.
  unfold update. rewrite update_loop_absorb. cbn [_hash_h _hash_n _hash_sigma].
  fold (block_offsets (_buff s ++ data)).
  fold (whole_blocks (_buff s ++ data)).
  by destruct (absorb _ _) as [[[h n] sigma]| |].
Qed.

Lemma of_nat_mod_64 (n : nat) : Z.of_nat n mod 64 = Z.of_nat (n mod 64).
Proof. by rewrite Nat2Z.inj_mod. Qed.

(** The buffer that [update] leaves is the unconsumed tail of the data,
    unless the data ends on a block boundary and the buffer was not
    empty. *)
Lemma update_buffer_is_tail (buff data : bytes) :
  let pad := 64 - Z.of_nat (length data) mod 64 in
  ((length data mod 64)%nat <> 0%nat \/ buff = []) ->
  (if pad <? 64 then last_bytes data (Z.to_nat (64 - pad)) else buff)
  = drop (64 * (length data / 64)) data.
Proof.
  intros pad H. unfold pad.
  pose proof (Nat.div_mod_eq (length data) 64) as Hd.
  pose proof (Nat.mod_upper_bound (length data) 64 ltac:(lia)) as Hr.
  rewrite of_nat_mod_64.
  destruct (Z.ltb_spec (64 - Z.of_nat (length data mod 64)) 64) as [Hlt|Hge].
  - unfold last_bytes. f_equal. lia.
  - destruct H as [H|Hnil]; [lia|]. subst buff.
    rewrite drop_ge; [done|lia].
Qed.

Lemma digest_same_fields (name : string) (buff h n sigma : bytes)
  (k k' : nat) (pad pad' : Z) :
  digest (mkGOST34112012 name buff k pad h n sigma)
  = digest (mkGOST34112012 name buff k' pad' h n sigma).
Proof.
  unfold digest, copy, hash_final, get_hash, digest_size.
  cbn [_name _buff _num_block _pad_block_size _hash_h _hash_n _hash_sigma].
  repeat (match goal with
          | |- context [?m ≫= _] =>
              lazymatch m with
              | _ ≫= _ => fail
              | _ => destruct m; cbn [mbind result_bind]; try done
              end
          end).
Qed.

Lemma incremental_update_agrees (s : GOST34112012) (a b : bytes) :
  _buff s = [] ->
  ((length a mod 64)%nat = 0%nat \/
   ((length a + length b) mod 64)%nat <> 0%nat) ->
  (s1 ← update s a; s2 ← update s1 b; digest s2)
  = (s' ← update s (a ++ b); digest s').
Proof.
  intros Hbuff Hlen.
  pose proof (Nat.div_mod_eq (length a) 64) as Hda.
  pose proof (Nat.mod_upper_bound (length a) 64 ltac:(lia)) as Hra.
  rewrite (update_absorb s a), (update_absorb s (a ++ b)).
  rewrite Hbuff. cbn [app].
  rewrite whole_blocks_app, absorb_app.
  destruct (absorb (whole_blocks a) _) as [[[h1 n1] sigma1]| |];
    cbn [mbind result_bind]; [|done|done].
  cbv zeta.
  rewrite (update_buffer_is_tail [] a) by (by right).
  rewrite update_absorb.
  cbn [_name _buff _num_block _pad_block_size _hash_h _hash_n _hash_sigma].
  set (tail := drop (64 * (length a / 64)) a).
  assert (Htail : length tail = (length a mod 64)%nat).
  { unfold tail. rewrite length_drop. lia. }
  destruct (absorb (whole_blocks (tail ++ b)) _) as [[[h2 n2] sigma2]| |];
    cbn [mbind result_bind]; [|done|done].
  assert (Hmod : (length (tail ++ b) mod 64 = length (a ++ b) mod 64)%nat).
  { rewrite !length_app, Htail. rewrite (Nat.Div0.add_mod (length a)).
    rewrite (Nat.Div0.add_mod (length a mod 64)).
    by rewrite Nat.Div0.mod_mod. }
  rewrite !of_nat_mod_64, Hmod.
  destruct (Z.ltb_spec (64 - Z.of_nat (length (a ++ b) mod 64)) 64)
    as [Hlt|Hge].
  - replace (last_bytes (tail ++ b)
               (Z.to_nat (64 - (64 - Z.of_nat (length (a ++ b) mod 64)))))
      with (last_bytes (a ++ b)
              (Z.to_nat (64 - (64 - Z.of_nat (length (a ++ b) mod 64))))).
    { apply digest_same_fields. }
    unfold last_bytes, tail.
    rewrite <- (drop_app_le a b (64 * (length a / 64))) by lia.
    rewrite drop_drop, length_drop. f_equal.
    pose proof (Nat.Div0.mod_le (length (tail ++ b)) 64) as Hle.
    rewrite Hmod in Hle. unfold tail in Hle.
    rewrite <- (drop_app_le a b (64 * (length a / 64))) in Hle by lia.
    rewrite length_drop in Hle.
    assert (64 * (length a / 64) <= length (a ++ b))%nat
      by (rewrite length_app; lia).
    lia.
  - assert (tail = []) as ->.
    { apply nil_length_inv. rewrite Htail.
      destruct Hlen as [Hz|Hnz]; [done|].
      rewrite length_app in Hge. lia. }
    apply digest_same_fields.
Qed.

(** For a fresh hasher, feeding [a] and then [b] gives the digest of
    [a + b] whenever [a] ends on a block boundary or [a + b] does not. *)
Theorem incremental_digest_agrees (name : string) (a b : bytes) :
  ((length a mod 64)%nat = 0%nat \/
   ((length a + length b) mod 64)%nat <> 0%nat) ->
  digest_incremental name a b = digest_one_shot name (a ++ b).
Proof.
  intros Hlen. unfold digest_incremental, digest_one_shot.
  destruct (new name []) as [s| |] eqn:Hnew; cbn [mbind result_bind];
    [|done|done].
  apply incremental_update_agrees; [|done].
  unfold new in Hnew. destruct (_ || _); [|done].
  unfold init in Hnew. cbn in Hnew. by inversion Hnew.
Qed.

Lemma incremental_digest_agrees_witness :
  let a := replicate 10 1 in
  let b := replicate 53 2 in
  ((length a mod 64)%nat = 0%nat \/
   ((length a + length b) mod 64)%nat <> 0%nat) /\
  digest_incremental "streebog256" a b
  = digest_one_shot "streebog256" (a ++ b).
Proof.
  split; [right; vm_compute; discriminate|].
  apply incremental_digest_agrees. right. vm_compute. discriminate.
Defined.

(** ** The pipeline on 64-byte arrays *)

Lemma lxor_bound (n a b : Z) :
  0 <= n -> 0 <= a < 2 ^ n -> 0 <= b < 2 ^ n -> 0 <= Z.lxor a b < 2 ^ n.
Proof.
  intros Hn Ha Hb.
  assert (0 <= Z.lxor a b) as H0 by (apply Z.lxor_nonneg; lia).
  split; [done|].
  destruct (Z.eq_dec (Z.lxor a b) 0) as [->|Hne]; [lia|].
  apply Z.log2_lt_pow2; [lia|].
  pose proof (Z.log2_lxor a b ltac:(lia) ltac:(lia)) as Hl.
  assert (forall c, 0 <= c < 2 ^ n -> 0 < n -> Z.log2 c < n) as Hlog.
  { intros c Hc Hn'. destruct (Z.eq_dec c 0) as [->|]; [done|].
    apply Z.log2_lt_pow2; lia. }
  assert (0 < n).
  { destruct (Z.eq_dec n 0) as [->|]; [|lia].
    assert (a = 0) as -> by lia. assert (b = 0) as -> by lia. done. }
  pose proof (Hlog a Ha ltac:(lia)). pose proof (Hlog b Hb ltac:(lia)). lia.
Qed.

Lemma is_byte_range (x : Z) : is_byte x = true <-> 0 <= x < 256.
Proof.
  unfold is_byte. rewrite andb_true_iff, Z.leb_le, Z.ltb_lt. done.
Qed.

Lemma bytes_ok_lookup (l : bytes) (i : nat) (x : Z) :
  bytes_ok l = true -> l !! i = Some x -> 0 <= x < 256.
Proof.
  intros Hl Hi. apply is_byte_range.
  unfold bytes_ok in Hl. rewrite forallb_forall in Hl.
  apply Hl, list_elem_of_In. by eapply list_elem_of_lookup_2.
Qed.

Lemma bytes_ok_intro (l : bytes) :
  (forall i x, l !! i = Some x -> 0 <= x < 256) -> bytes_ok l = true.
Proof.
  intros H. unfold bytes_ok. apply forallb_forall. intros x Hx.
  apply list_elem_of_In, list_elem_of_lookup_1 in Hx as [i Hi].
  apply is_byte_range. by eapply H.
Qed.

Lemma add_xor_block (a b : bytes) :
  is_block a -> is_block b -> exists c, add_xor a b = Ok c /\ is_block c.
Proof.
  intros [Ha Hab] [Hb Hbb]. unfold add_xor.
  rewrite Ha, Hb. cbn [Nat.eqb]. eexists. split; [reflexivity|].
  split.
  - rewrite length_zip_with. lia.
  - apply bytes_ok_intro. intros i x Hi.
    apply lookup_zip_with_Some in Hi as (xa & xb & -> & Hxa & Hxb).
    pose proof (bytes_ok_lookup _ _ _ Hab Hxa).
    pose proof (bytes_ok_lookup _ _ _ Hbb Hxb).
    apply (lxor_bound 8); lia.
Qed.

Lemma sbox_lookup (d : Z) :
  0 <= d < 256 -> S_BOX !! Z.to_nat d = Some (sbox d) /\ 0 <= sbox d < 256.
Proof.
  intros Hd. unfold sbox.
  assert (Hlen : length S_BOX = 256%nat) by reflexivity.
  destruct (lookup_lt_is_Some_2 S_BOX (Z.to_nat d) ltac:(lia)) as [x Hx].
  rewrite Hx. split; [done|]. cbn [default].
  eapply (bytes_ok_lookup S_BOX); [reflexivity|exact Hx].
Qed.

Lemma hash_s_block (data : bytes) :
  is_block data -> exists c, _hash_s data = Ok c /\ is_block c.
Proof.
  intros [Hlen Hok]. unfold _hash_s.
  exists (map (fun i => sbox (default 0 (data !! i))) (seq 0 64)).
  split.
  - apply for_fill_down; [apply length_replicate|].
    intros i Hi.
    destruct (lookup_lt_is_Some_2 data i ltac:(lia)) as [x Hx].
    cbn beta. rewrite (getitem_lookup _ _ _ Hx), Hx.
    cbn [mbind result_bind default].
    apply getitem_lookup, sbox_lookup. by eapply bytes_ok_lookup.
  - split; [by rewrite length_map, length_seq|].
    apply bytes_ok_intro. intros i x Hi.
    rewrite list_lookup_fmap in Hi.
    destruct (seq 0 64 !! i) as [j|] eqn:Hj; [|done].
    cbn in Hi. injection Hi as <-.
    apply lookup_seq in Hj as [-> Hj].
    destruct (lookup_lt_is_Some_2 data i ltac:(lia)) as [y Hy].
    change (0 + i)%nat with i. rewrite Hy. cbn [default].
    apply sbox_lookup. by eapply bytes_ok_lookup.
Qed.

Lemma hash_p_block (data : bytes) :
  is_block data -> exists c, _hash_p data = Ok c /\ is_block c.
Proof.
  intros [Hlen Hok]. exists (permute data).
  split; [by apply hash_p_permute|].
  split; [apply length_permute|].
  apply bytes_ok_intro. intros i x Hi.
  destruct (decide (i < 64)%nat) as [Hlt|Hge].
  - rewrite lookup_permute in Hi by done. injection Hi as <-.
    destruct (lookup_lt_is_Some_2 data (tau i)) as [y Hy].
    { rewrite Hlen. by apply tau_bound. }
    rewrite Hy. by eapply bytes_ok_lookup.
  - rewrite lookup_ge_None_2 in Hi; [done|]. rewrite length_permute. lia.
Qed.

Lemma A_lookup (j : nat) :
  (j < 64)%nat -> exists a, _A !! j = Some a /\ 0 <= a < 2 ^ 64.
Proof.
  intros Hj.
  destruct (lookup_lt_is_Some_2 _A j) as [a Ha].
  { by change (length _A) with 64%nat. }
  exists a. split; [done|].
  assert (forallb (fun a => (0 <=? a) && (a <? 2 ^ 64)) _A = true) as Hall
    by reflexivity.
  rewrite forallb_forall in Hall.
  apply list_elem_of_lookup_2, list_elem_of_In, Hall in Ha.
  apply andb_prop in Ha as [H0 H1].
  apply Z.leb_le in H0. apply Z.ltb_lt in H1. done.
Qed.

Lemma hash_l_lane_ok (idx : list nat) :
  (forall j, j ∈ idx -> (j < 64)%nat) ->
  forall internal r,
    0 <= r < 2 ^ 64 ->
    exists r', hash_l_lane idx internal r = Ok r' /\ 0 <= r' < 2 ^ 64.
Proof.
  induction idx as [|j idx IH]; intros Hidx internal r Hr.
  - by exists r.
  - cbn [hash_l_lane].
    destruct (A_lookup j) as (a & Ha & Hab).
    { apply Hidx, list_elem_of_here. }
    rewrite (getitem_lookup _ _ _ Ha). cbn [mbind result_bind].
    destruct (Z.land internal 1 =? 0); cbn [mbind result_bind];
      apply IH; try done.
    + intros k Hk. by apply Hidx, list_elem_of_further.
    + intros k Hk. by apply Hidx, list_elem_of_further.
    + by apply (lxor_bound 64).
Qed.

Lemma pack_Q_ok (v : Z) :
  0 <= v < 2 ^ 64 ->
  exists b, pack_Q v = Ok b /\ length b = 8%nat /\ bytes_ok b = true.
Proof.
  intros Hv. unfold pack_Q.
  destruct (Z.leb_spec 0 v); [|lia].
  destruct (Z.ltb_spec v (2 ^ 64)); [|lia].
  eexists. split; [reflexivity|]. split; [done|].
  apply bytes_ok_intro. intros i x Hi.
  rewrite list_lookup_fmap in Hi.
  destruct (seq 0 8 !! i) as [j|]; [|done].
  cbn in Hi. injection Hi as <-.
  change 255 with (Z.ones 8). rewrite Z.land_ones by lia.
  apply Z.mod_pos_bound. lia.
Qed.

Lemma bytes_ok_app (a b : bytes) :
  bytes_ok (a ++ b) = bytes_ok a && bytes_ok b.
Proof. apply forallb_app. Qed.

Lemma hash_l_loop_ok (data : bytes) (idx : list nat) :
  (forall i, i ∈ idx -> (i * 8 + 8 <= length data)%nat) ->
  forall res,
    exists res',
      hash_l_loop idx data res = Ok (res ++ res') /\
      length (concat res') = (8 * length idx)%nat /\
      bytes_ok (concat res') = true.
Proof.
  induction idx as [|i idx IH]; intros Hidx res.
  - exists []. by rewrite app_nil_r.
  - cbn [hash_l_loop]. unfold unpack_Q.
    assert (length (slice data (i * 8) (i * 8 + 8)) = 8%nat) as ->.
    { unfold slice. rewrite length_take, length_drop.
      pose proof (Hidx i (list_elem_of_here _ _)). lia. }
    cbn [Nat.eqb mbind result_bind].
    destruct (hash_l_lane_ok (range_down _BLOCK_SIZE)) with
      (internal := le_int (slice data (i * 8) (i * 8 + 8))) (r := 0)
      as (r' & -> & Hr'); [|lia|].
    { intros j Hj. unfold range_down in Hj.
      apply list_elem_of_In, in_rev, list_elem_of_In, elem_of_seq in Hj.
      change _BLOCK_SIZE with 64%nat in Hj. lia. }
    cbn [mbind result_bind].
    destruct (pack_Q_ok r' Hr') as (b & -> & Hlen & Hok).
    cbn [mbind result_bind].
    destruct (IH (fun k Hk => Hidx k (list_elem_of_further _ _ _ Hk))
                (res ++ [b])) as (res' & -> & Hl & Hb).
    exists (b :: res'). split; [by rewrite <- app_assoc|].
    cbn [concat length]. split.
    + rewrite length_app. lia.
    + by rewrite bytes_ok_app, Hok, Hb.
Qed.

Lemma hash_l_block (data : bytes) :
  is_block data -> exists c, _hash_l data = Ok c /\ is_block c.
Proof.
  intros [Hlen _]. unfold _hash_l.
  destruct (hash_l_loop_ok data (seq 0 8)) with (res := @nil bytes)
    as (res' & -> & Hl & Hb).
  { intros i Hi. apply elem_of_seq in Hi. lia. }
  cbn [mbind result_bind app]. eexists. split; [reflexivity|].
  split; [by rewrite Hl|done].
Qed.

Lemma C_lookup (i : nat) :
  (i < 12)%nat -> exists c, _C !! i = Some c /\ is_block c.
Proof.
  intros Hi.
  destruct (lookup_lt_is_Some_2 _C i) as [c Hc].
  { by change (length _C) with 12%nat. }
  exists c. split; [done|].
  assert (forallb (fun c => (length c =? 64)%nat && bytes_ok c) _C = true)
    as Hall by reflexivity.
  rewrite forallb_forall in Hall.
  apply list_elem_of_lookup_2, list_elem_of_In, Hall in Hc.
  apply andb_prop in Hc as [H0 H1]. by apply Nat.eqb_eq in H0.
Qed.

Lemma hash_lps_block (data : bytes) :
  is_block data ->
  exists c, (x ← _hash_s data; y ← _hash_p x; _hash_l y) = Ok c /\ is_block c.
Proof.
  intros H.
  destruct (hash_s_block data H) as (x & -> & Hx). cbn [mbind result_bind].
  destruct (hash_p_block x Hx) as (y & -> & Hy). cbn [mbind result_bind].
  by apply hash_l_block.
Qed.

Lemma hash_get_key_block (k : bytes) (i : nat) :
  is_block k -> (i < 12)%nat -> exists c, _hash_get_key k i = Ok c /\ is_block c.
Proof.
  intros Hk Hi. unfold _hash_get_key.
  destruct (C_lookup i Hi) as (c & Hc & Hcb).
  rewrite (getitem_lookup _ _ _ Hc). cbn [mbind result_bind].
  destruct (add_xor_block k c Hk Hcb) as (key & -> & Hkey).
  cbn [mbind result_bind]. by apply hash_lps_block.
Qed.

Lemma hash_e_loop_block (idx : list nat) :
  (forall i, i ∈ idx -> (i < 12)%nat) ->
  forall k internal,
    is_block k -> is_block internal ->
    exists c, hash_e_loop idx k internal = Ok c /\ is_block c.
Proof.
  induction idx as [|i idx IH]; intros Hidx k internal Hk Hint.
  - by exists internal.
  - cbn [hash_e_loop].
    destruct (hash_s_block internal Hint) as (x & -> & Hx).
    cbn [mbind result_bind].
    destruct (hash_p_block x Hx) as (y & -> & Hy). cbn [mbind result_bind].
    destruct (hash_l_block y Hy) as (z & -> & Hz). cbn [mbind result_bind].
    destruct (hash_get_key_block k i Hk) as (k' & -> & Hk').
    { apply Hidx, list_elem_of_here. }
    cbn [mbind result_bind].
    destruct (add_xor_block z k' Hz Hk') as (w & -> & Hw).
    cbn [mbind result_bind].
    apply IH; [|done..]. intros j Hj. by apply Hidx, list_elem_of_further.
Qed.

Lemma hash_e_block (k data : bytes) :
  is_block k -> is_block data -> exists c, _hash_e k data = Ok c /\ is_block c.
Proof.
  intros Hk Hd. unfold _hash_e.
  destruct (add_xor_block k data Hk Hd) as (x & -> & Hx).
  cbn [mbind result_bind].
  apply hash_e_loop_block; [|done..].
  intros i Hi. apply elem_of_seq in Hi. lia.
Qed.

Lemma hash_g_block (hash_h hash_n data : bytes) :
  is_block hash_h -> is_block hash_n -> is_block data ->
  exists c, _hash_g hash_h hash_n data = Ok c /\ is_block c.
Proof.
  intros Hh Hn Hd. unfold _hash_g.
  destruct (add_xor_block hash_n hash_h Hn Hh) as (k & -> & Hk).
  cbn [mbind result_bind].
  destruct (hash_s_block k Hk) as (x & -> & Hx). cbn [mbind result_bind].
  destruct (hash_p_block x Hx) as (y & -> & Hy). cbn [mbind result_bind].
  destruct (hash_l_block y Hy) as (z & -> & Hz). cbn [mbind result_bind].
  destruct (hash_e_block z data Hz Hd) as (e & -> & He).
  cbn [mbind result_bind].
  destruct (add_xor_block e hash_h He Hh) as (f & -> & Hf).
  cbn [mbind result_bind].
  by apply add_xor_block.
Qed.

Lemma hash_add_512_block (a b : bytes) :
  is_block a -> is_block b -> exists c, _hash_add_512 a b = Ok c /\ is_block c.
Proof.
  intros [Ha _] [Hb _]. exists (add_rec a b 0).
  split; [by apply hash_add_512_add_rec|].
  split; [by rewrite length_add_rec; lia|apply bytes_ok_add_rec].
Qed.

Lemma bytes_ok_drop (l : bytes) (n : nat) :
  bytes_ok l = true -> bytes_ok (drop n l) = true.
Proof.
  intros H. apply bytes_ok_intro. intros i x Hi.
  rewrite lookup_drop in Hi. by eapply bytes_ok_lookup.
Qed.

Lemma bytes_ok_take (l : bytes) (n : nat) :
  bytes_ok l = true -> bytes_ok (take n l) = true.
Proof.
  intros H. apply bytes_ok_intro. intros i x Hi.
  apply lookup_take_Some in Hi as [Hi _]. by eapply bytes_ok_lookup.
Qed.

Lemma bytes_ok_replicate (n : nat) (v : Z) :
  0 <= v < 256 -> bytes_ok (replicate n v) = true.
Proof.
  intros Hv. apply bytes_ok_intro. intros i x Hi.
  by apply lookup_replicate in Hi as [-> _].
Qed.

Lemma bytes_ok_insert (l : bytes) (i : nat) (v : Z) :
  bytes_ok l = true -> 0 <= v < 256 -> bytes_ok (<[i := v]> l) = true.
Proof.
  intros Hl Hv. apply bytes_ok_intro. intros j x Hj.
  destruct (decide (i = j)) as [->|Hne].
  - destruct (decide (j < length l)%nat).
    + rewrite list_lookup_insert_eq in Hj by done. by injection Hj as <-.
    + rewrite lookup_ge_None_2 in Hj; [done|]. rewrite length_insert. lia.
  - rewrite list_lookup_insert_ne in Hj by done. by eapply bytes_ok_lookup.
Qed.

Lemma whole_blocks_block (data : bytes) :
  bytes_ok data = true -> Forall is_block (whole_blocks data).
Proof.
  intros H. unfold whole_blocks. apply Forall_fmap, Forall_forall.
  intros i Hi. cbn.
  pose proof (block_offsets_in_range data) as Hr.
  rewrite Forall_forall in Hr. specialize (Hr i Hi).
  split; [by apply length_slice_block|].
  unfold slice. by apply bytes_ok_take, bytes_ok_drop.
Qed.

Lemma absorb_ok (blocks : list bytes) :
  Forall is_block blocks ->
  forall h n sigma,
    is_block h -> is_block n -> is_block sigma ->
    exists h' n' sigma',
      absorb blocks (h, n, sigma) = Ok (h', n', sigma') /\
      is_block h' /\ is_block n' /\ is_block sigma'.
Proof.
  induction 1 as [|b blocks Hb _ IH]; intros h n sigma Hh Hn Hs.
  - by exists h, n, sigma.
  - cbn [absorb].
    destruct (hash_g_block h n b Hh Hn Hb) as (h' & -> & Hh').
    cbn [mbind result_bind].
    destruct (hash_add_512_block n _V_512 Hn) as (n' & -> & Hn').
    { by split. }
    cbn [mbind result_bind].
    destruct (hash_add_512_block sigma b Hs Hb) as (s' & -> & Hs').
    cbn [mbind result_bind]. by apply IH.
Qed.

Lemma update_ok (s : GOST34112012) (data : bytes) :
  state_ok s -> bytes_ok data = true ->
  exists s', update s data = Ok s' /\ state_ok s' /\ _name s' = _name s.
Proof.
  intros (Hh & Hn & Hs & Hlen & Hbuff) Hdata.
  rewrite update_absorb.
  assert (bytes_ok (_buff s ++ data) = true) as Hall
    by (by rewrite bytes_ok_app, Hbuff, Hdata).
  destruct (absorb_ok _ (whole_blocks_block _ Hall) _ _ _ Hh Hn Hs)
    as (h' & n' & s' & -> & Hh' & Hn' & Hs').
  cbn [mbind result_bind]. eexists. split; [reflexivity|].
  split; [|done].
  split; [done|]. split; [done|]. split; [done|].
  cbn [_buff].
  pose proof (Z.mod_pos_bound (Z.of_nat (length (_buff s ++ data))) 64
                ltac:(lia)).
  destruct (Z.ltb_spec
              (64 - Z.of_nat (length (_buff s ++ data)) mod 64) 64).
  - split; [|by apply bytes_ok_drop].
    pose proof (length_last_bytes (_buff s ++ data)
                  (Z.to_nat (64 - (64 - Z.of_nat
                     (length (_buff s ++ data)) mod 64)))).
    lia.
  - done.
Qed.

Lemma fresh_state_ok (name : string) :
  state_ok
    (mkGOST34112012 name [] 0 0
       (if String.eqb name "streebog256"
        then replicate _BLOCK_SIZE 1 else replicate _BLOCK_SIZE 0)
       (replicate _BLOCK_SIZE 0) (replicate _BLOCK_SIZE 0)).
Proof.
  unfold state_ok, is_block. cbn [_hash_h _hash_n _hash_sigma _buff].
  destruct (String.eqb name "streebog256"); repeat split; try done.
  all: cbn; lia.
Qed.

Lemma fed_with_bytes_ok (s : GOST34112012) :
  fed_with_bytes s -> state_ok s.
Proof.
  induction 1 as [name data s Hd H|s data s' _ IH Hd H|s _ IH].
  - unfold new in H. destruct (_ || _); [|done].
    unfold init in H. destruct (bool_decide _).
    + injection H as <-. apply fresh_state_ok.
    + destruct (update_ok _ data (fresh_state_ok name) Hd)
        as (s1 & Hs1 & Hok & _).
      rewrite Hs1 in H. by injection H as <-.
  - destruct (update_ok s data IH Hd) as (s1 & Hs1 & Hok & _).
    rewrite Hs1 in H. by injection H as <-.
  - apply fresh_state_ok.
Qed.

Lemma hash_final_ok (s : GOST34112012) :
  state_ok s ->
  exists s', hash_final s = Ok s' /\ is_block (_hash_h s') /\
             _name s' = _name s.
Proof.
  intros (Hh & Hn & Hs & Hlen & Hbuff). unfold hash_final.
  change (Z.of_nat _BLOCK_SIZE) with 64.
  set (pad := 64 - Z.of_nat (length (_buff s))).
  destruct (Z.leb_spec pad 64) as [_|Hpad]; [|unfold pad in Hpad; lia].
  set (buff := (_buff s ++ [1]) ++ replicate (Z.to_nat (pad - 1)) 0).
  set (internal := <[0%nat := _]> (<[1%nat := _]> (replicate _ 0))).
  assert (is_block buff) as Hb.
  { split.
    - unfold buff, pad. rewrite !length_app, length_replicate. cbn. lia.
    - unfold buff. rewrite !bytes_ok_app, Hbuff.
      by rewrite bytes_ok_replicate. }
  assert (is_block internal) as Hi.
  { split; [unfold internal; by rewrite !length_insert|].
    assert (forall v, 0 <= Z.land v 255 < 256) as Hland.
    { intros v. change 255 with (Z.ones 8). rewrite Z.land_ones by lia.
      apply Z.mod_pos_bound. lia. }
    unfold internal.
    apply bytes_ok_insert; [|apply Hland].
    apply bytes_ok_insert; [|apply Hland].
    by apply bytes_ok_replicate. }
  destruct (hash_g_block _ _ _ Hh Hn Hb) as (h1 & -> & Hh1).
  cbn [mbind result_bind].
  destruct (hash_add_512_block _ _ Hn Hi) as (n1 & -> & Hn1).
  cbn [mbind result_bind].
  destruct (hash_add_512_block _ _ Hs Hb) as (s1 & -> & Hs1).
  cbn [mbind result_bind].
  assert (is_block _V_0) as H0 by (by split).
  destruct (hash_g_block _ _ _ Hh1 H0 Hn1) as (h2 & -> & Hh2).
  cbn [mbind result_bind].
  destruct (hash_g_block _ _ _ Hh2 H0 Hs1) as (h3 & -> & Hh3).
  cbn [mbind result_bind]. eexists. by split.
Qed.

Lemma digest_ok (s : GOST34112012) :
  state_ok s ->
  exists d, digest s = Ok d /\ length d = digest_size s /\
            bytes_ok d = true.
Proof.
  intros Hs. unfold digest, copy.
  destruct (hash_final_ok s Hs) as (s' & -> & [Hlen Hok] & Hname).
  cbn [mbind result_bind]. eexists. split; [reflexivity|].
  unfold get_hash, last_bytes, digest_size. rewrite Hname.
  split; [|by apply bytes_ok_drop].
  rewrite length_drop, Hlen.
  destruct (String.eqb (_name s) "streebog512"); lia.
Qed.

(** The compression function is total on 64-byte arrays and returns a
    64-byte array. *)
Theorem compression_returns_block (hash_h hash_n data : bytes) :
  is_block hash_h -> is_block hash_n -> is_block data ->
  exists c, _hash_g hash_h hash_n data = Ok c /\ is_block c.
Proof. intros Hh Hn Hd. by apply hash_g_block. Qed.

Lemma compression_returns_block_witness :
  let z := replicate 64 0 in
  is_block z /\ exists c, _hash_g z z z = Ok c /\ is_block c.
Proof.
  assert (H : is_block (replicate 64 0)) by (by split).
  split; [exact H|]. by apply compression_returns_block.
Defined.

Lemma fed_buffered_state : fed_with_bytes buffered_state.
Proof. by apply (fed_new "streebog256" [1; 2; 3]). Qed.

(** [update] never fails on a hasher fed with bytes. *)
Theorem update_returns (s : GOST34112012) (data : bytes) :
  fed_with_bytes s -> bytes_ok data = true ->
  exists s', update s data = Ok s' /\ _name s' = _name s.
Proof.
  intros Hs Hd.
  destruct (update_ok s data (fed_with_bytes_ok s Hs) Hd)
    as (s' & H & _ & Hname).
  by exists s'.
Qed.

Lemma update_returns_witness :
  fed_with_bytes buffered_state /\ bytes_ok (replicate 100 255) = true /\
  exists s', update buffered_state (replicate 100 255) = Ok s' /\
             _name s' = _name buffered_state.
Proof.
  split; [apply fed_buffered_state|]. split; [reflexivity|].
  apply update_returns; [apply fed_buffered_state|reflexivity].
Defined.

(** [digest] never fails on a hasher fed with bytes, and returns
    [digest_size] bytes. *)
Theorem digest_returns_digest_size (s : GOST34112012) :
  fed_with_bytes s ->
  exists d, digest s = Ok d /\ length d = digest_size s /\
            bytes_ok d = true.
Proof. intros Hs. by apply digest_ok, fed_with_bytes_ok. Qed.

Lemma digest_returns_digest_size_witness :
  fed_with_bytes buffered_state /\
  exists d, digest buffered_state = Ok d /\ length d = 32%nat /\
            bytes_ok d = true.
Proof.
  split; [apply fed_buffered_state|].
  apply (digest_returns_digest_size buffered_state), fed_buffered_state.
Defined.

(** [new] returns a hasher exactly for the two supported names. *)
Theorem new_returns_for_supported_names (name : string) (data : bytes) :
  bytes_ok data = true ->
  if String.eqb name "streebog512" || String.eqb name "streebog256"
  then exists s, new name data = Ok s /\ _name s = name
  else new name data
       = Raise (GOSTHashError "GOSTHashError: unsupported hash type").
Proof.
  intros Hd. unfold new.
  destruct (_ || _); [|done].
  unfold init. destruct (bool_decide _).
  - by eexists.
  - destruct (update_ok _ data (fresh_state_ok name) Hd)
      as (s & -> & _ & Hname).
    by exists s.
Qed.

Lemma new_returns_for_supported_names_witness :
  bytes_ok [1; 2; 3] = true /\
  (exists s, new "streebog512" [1; 2; 3] = Ok s /\ _name s = "streebog512")
  /\ new "sha256" [1; 2; 3]
     = Raise (GOSTHashError "GOSTHashError: unsupported hash type").
Proof.
  split; [reflexivity|]. split.
  - apply (new_returns_for_supported_names "streebog512" [1; 2; 3]).
    reflexivity.
  - apply (new_returns_for_supported_names "sha256" [1; 2; 3]).
    reflexivity.
Defined.

Lemma hash_s_substitute (data : bytes) :
  is_block data -> _hash_s data = Ok (substitute data).
Proof.
  intros [Hlen Hok]. unfold _hash_s, substitute.
  apply for_fill_down; [apply length_replicate|].
  intros i Hi. change _BLOCK_SIZE with 64%nat in Hi.
  destruct (lookup_lt_is_Some_2 data i ltac:(lia)) as [x Hx].
  cbn beta. rewrite (getitem_lookup _ _ _ Hx), Hx.
  cbn [mbind result_bind default].
  apply getitem_lookup, sbox_lookup. by eapply bytes_ok_lookup.
Qed.

Lemma lookup_substitute (data : bytes) (i : nat) :
  (i < 64)%nat ->
  substitute data !! i = Some (sbox (default 0 (data !! i))).
Proof.
  intros Hi. unfold substitute. rewrite list_lookup_fmap.
  change _BLOCK_SIZE with 64%nat. by rewrite lookup_seq_lt.
Qed.

Lemma permute_substitute (data : bytes) :
  permute (substitute data) = substitute (permute data).
Proof.
  unfold permute at 1. unfold substitute at 2.
  apply list_fmap_ext. intros k i Hi.
  apply lookup_seq in Hi as [-> Hi]. change (0 + k)%nat with k.
  change _BLOCK_SIZE with 64%nat in Hi.
  rewrite lookup_substitute by (by apply tau_bound).
  by rewrite lookup_permute.
Qed.

(** On a 64-byte array the substitution S and the permutation P commute:
    [_hash_p(_hash_s(x)) = _hash_s(_hash_p(x))]. *)
Theorem substitution_commutes_with_permutation (data : bytes) :
  is_block data ->
  (x ← _hash_s data; _hash_p x) = (y ← _hash_p data; _hash_s y).
Proof.
  intros Hd. destruct (hash_p_block data Hd) as (y & Hy & Hyb).
  rewrite (hash_s_substitute data Hd), Hy. cbn [mbind result_bind].
  rewrite (hash_p_permute data (proj1 Hd)) in Hy. injection Hy as <-.
  rewrite (hash_s_substitute _ Hyb).
  rewrite hash_p_permute.
  - by rewrite permute_substitute.
  - unfold substitute. by rewrite length_map, length_seq.
Qed.

Lemma substitution_commutes_with_permutation_witness :
  let data := map Z.of_nat (seq 0 64) in
  is_block data /\
  (x ← _hash_s data; _hash_p x) = (y ← _hash_p data; _hash_s y).
Proof.
  assert (H : is_block (map Z.of_nat (seq 0 64))) by (by split).
  split; [exact H|]. by apply substitution_commutes_with_permutation.
Defined.

Lemma land_1_testbit (v : Z) : (Z.land v 1 =? 0) = negb (Z.testbit v 0).
Proof.
  change 1 with (Z.ones 1). rewrite Z.land_ones by lia.
  change (2 ^ 1) with 2. rewrite <- Z.bit0_mod.
  by destruct (Z.testbit v 0).
Qed.

Lemma hash_l_lane_mix (idx : list nat) :
  (forall j, j ∈ idx -> (j < 64)%nat) ->
  forall internal r,
    hash_l_lane idx internal r = Ok (Z.lxor r (lane_mix idx internal)).
Proof.
  induction idx as [|j idx IH]; intros Hidx internal r.
  - cbn. by rewrite Z.lxor_0_r.
  - cbn [hash_l_lane lane_mix].
    destruct (A_lookup j) as (a & Ha & _).
    { apply Hidx, list_elem_of_here. }
    rewrite (getitem_lookup _ _ _ Ha), Ha. cbn [default mbind result_bind].
    rewrite land_1_testbit.
    destruct (Z.testbit internal 0); cbn [negb mbind result_bind];
      rewrite IH by (intros k Hk; by apply Hidx, list_elem_of_further).
    + by rewrite Z.lxor_assoc.
    + by rewrite Z.lxor_0_l.
Qed.

Lemma lane_mix_bound (idx : list nat) :
  (forall j, j ∈ idx -> (j < 64)%nat) ->
  forall v, 0 <= lane_mix idx v < 2 ^ 64.
Proof.
  induction idx as [|j idx IH]; intros Hidx v; [cbn; lia|].
  cbn [lane_mix]. apply (lxor_bound 64); [lia| |].
  - destruct (A_lookup j) as (a & Ha & Hb).
    { apply Hidx, list_elem_of_here. }
    rewrite Ha. destruct (Z.testbit v 0); [exact Hb|done].
  - apply IH. intros k Hk. by apply Hidx, list_elem_of_further.
Qed.

Lemma lane_mix_lxor (idx : list nat) :
  forall u v,
    lane_mix idx (Z.lxor u v) = Z.lxor (lane_mix idx u) (lane_mix idx v).
Proof.
  induction idx as [|j idx IH]; intros u v; [done|].
  cbn [lane_mix]. rewrite Z.shiftr_lxor, IH, Z.lxor_spec.
  set (a := default 0 (_A !! j)).
  set (x := lane_mix idx (Z.shiftr u 1)).
  set (y := lane_mix idx (Z.shiftr v 1)).
  apply Z.bits_inj'. intros n _. rewrite !Z.lxor_spec.
  destruct (Z.testbit u 0), (Z.testbit v 0); cbn [xorb];
    rewrite ?Z.bits_0;
    destruct (Z.testbit a n), (Z.testbit x n), (Z.testbit y n); done.
Qed.

Lemma range_down_below (n : nat) : forall j, j ∈ range_down n -> (j < n)%nat.
Proof.
  intros j Hj. unfold range_down in Hj.
  apply list_elem_of_In, in_rev, list_elem_of_In, elem_of_seq in Hj. lia.
Qed.

Lemma hash_l_loop_linear_map (data : bytes) (idx : list nat) :
  (forall i, i ∈ idx -> (i * 8 + 8 <= length data)%nat) ->
  forall res,
    hash_l_loop idx data res
    = Ok (res ++ map (fun i =>
                        lane_bytes (lane_mix (range_down _BLOCK_SIZE)
                                      (le_int (slice data (i * 8) (i * 8 + 8)))))
                   idx).
Proof.
  induction idx as [|i idx IH]; intros Hidx res.
  - cbn. by rewrite app_nil_r.
  - cbn [hash_l_loop map]. unfold unpack_Q.
    assert (length (slice data (i * 8) (i * 8 + 8)) = 8%nat) as ->.
    { unfold slice. rewrite length_take, length_drop.
      pose proof (Hidx i (list_elem_of_here _ _)). lia. }
    cbn [Nat.eqb mbind result_bind].
    rewrite hash_l_lane_mix by apply range_down_below.
    cbn [mbind result_bind]. rewrite Z.lxor_0_l.
    pose proof (lane_mix_bound (range_down _BLOCK_SIZE)
                  (range_down_below _)
                  (le_int (slice data (i * 8) (i * 8 + 8)))) as Hb.
    unfold pack_Q.
    destruct (Z.leb_spec 0 (lane_mix (range_down _BLOCK_SIZE)
                              (le_int (slice data (i * 8) (i * 8 + 8)))));
      [|lia].
    destruct (Z.ltb_spec (lane_mix (range_down _BLOCK_SIZE)
                            (le_int (slice data (i * 8) (i * 8 + 8))))
                (2 ^ 64)); [|lia].
    cbn [andb mbind result_bind].
    rewrite IH by (intros k Hk; by apply Hidx, list_elem_of_further).
    by rewrite <- app_assoc.
Qed.

Lemma hash_l_linear_map (data : bytes) :
  length data = 64%nat -> _hash_l data = Ok (linear_map data).
Proof.
  intros Hlen. unfold _hash_l.
  rewrite hash_l_loop_linear_map.
  - done.
  - intros i Hi. apply elem_of_seq in Hi. lia.
Qed.

Lemma le_int_testbit_cons (x r : Z) (n : Z) :
  0 <= x < 256 -> 0 <= n ->
  Z.testbit (x + 256 * r) n
  = if n <? 8 then Z.testbit x n else Z.testbit r (n - 8).
Proof.
  intros Hx Hn. replace (x + 256 * r) with (x + r * 2 ^ 8) by lia.
  destruct (Z.ltb_spec n 8) as [Hlt|Hge].
  - rewrite <- (Z.mod_pow2_bits_low (x + r * 2 ^ 8) 8 n) by lia.
    rewrite Z.mod_add by lia. by rewrite Z.mod_small by lia.
  - replace n with ((n - 8) + 8) at 1 by lia.
    rewrite <- Z.div_pow2_bits by lia.
    rewrite Z.div_add by lia. rewrite Z.div_small by lia. done.
Qed.

Lemma le_int_lxor (a : bytes) :
  forall b,
    length a = length b -> bytes_ok a = true -> bytes_ok b = true ->
    le_int (zip_with Z.lxor a b) = Z.lxor (le_int a) (le_int b).
Proof.
  induction a as [|x a IH]; intros [|y b] Hlen Ha Hb; try done.
  cbn [zip_with le_int fold_right].
  change (fold_right (fun x acc => x + 256 * acc) 0) with le_int.
  cbn [bytes_ok forallb] in Ha, Hb.
  apply andb_prop in Ha as [Hx Ha]. apply andb_prop in Hb as [Hy Hb].
  apply is_byte_range in Hx, Hy.
  rewrite IH by (done || (cbn in Hlen; lia)).
  apply Z.bits_inj'. intros n Hn.
  rewrite Z.lxor_spec, !le_int_testbit_cons by (done || by apply (lxor_bound 8)).
  destruct (n <? 8); by rewrite Z.lxor_spec.
Qed.

Lemma land_lxor_distr (a b c : Z) :
  Z.land (Z.lxor a b) c = Z.lxor (Z.land a c) (Z.land b c).
Proof.
  apply Z.bits_inj'. intros n _.
  rewrite Z.lxor_spec, !Z.land_spec, Z.lxor_spec.
  by destruct (Z.testbit a n), (Z.testbit b n), (Z.testbit c n).
Qed.

Lemma lane_bytes_lxor (u v : Z) :
  lane_bytes (Z.lxor u v) = zip_with Z.lxor (lane_bytes u) (lane_bytes v).
Proof.
  unfold lane_bytes. cbn [seq map zip_with].
  by rewrite !Z.shiftr_lxor, !land_lxor_distr.
Qed.

Lemma slice_zip_with (f : Z -> Z -> Z) (a b : bytes) (lo hi : nat) :
  slice (zip_with f a b) lo hi = zip_with f (slice a lo hi) (slice b lo hi).
Proof. unfold slice. by rewrite zip_with_drop, zip_with_take. Qed.

Lemma length_lane_bytes (v : Z) : length (lane_bytes v) = 8%nat.
Proof. done. Qed.

Lemma bytes_ok_slice (data : bytes) (lo hi : nat) :
  bytes_ok data = true -> bytes_ok (slice data lo hi) = true.
Proof. intros H. unfold slice. by apply bytes_ok_take, bytes_ok_drop. Qed.

Lemma linear_map_lxor (a b : bytes) :
  is_block a -> is_block b ->
  linear_map (zip_with Z.lxor a b)
  = zip_with Z.lxor (linear_map a) (linear_map b).
Proof.
  intros [Hla Ha] [Hlb Hb]. unfold linear_map.
  generalize (seq 0 8). intros idx.
  induction idx as [|i idx IH]; [done|].
  cbn [map concat].
  rewrite zip_with_app by done. rewrite <- IH. f_equal.
  rewrite slice_zip_with, le_int_lxor, lane_mix_lxor, lane_bytes_lxor.
  - done.
  - unfold slice. rewrite !length_take, !length_drop. lia.
  - by apply bytes_ok_slice.
  - by apply bytes_ok_slice.
Qed.

(** [_hash_l] is linear over XOR: on 64-byte arrays,
    [_hash_l(a xor b) = _hash_l(a) xor _hash_l(b)]. *)
Theorem hash_l_linear (a b : bytes) :
  is_block a -> is_block b ->
  (c ← add_xor a b; _hash_l c)
  = (x ← _hash_l a; y ← _hash_l b; add_xor x y).
Proof.
  intros Ha Hb.
  destruct (add_xor_block a b Ha Hb) as (c & Hc & Hcb).
  rewrite Hc. cbn [mbind result_bind].
  unfold add_xor in Hc. rewrite (proj1 Ha), (proj1 Hb) in Hc.
  cbn [Nat.eqb] in Hc. injection Hc as <-.
  rewrite (hash_l_linear_map _ (proj1 Hcb)).
  rewrite (hash_l_linear_map _ (proj1 Ha)), (hash_l_linear_map _ (proj1 Hb)).
  cbn [mbind result_bind]. rewrite (linear_map_lxor a b Ha Hb).
  destruct (hash_l_block a Ha) as (x & Hx & Hxb).
  destruct (hash_l_block b Hb) as (y & Hy & Hyb).
  rewrite (hash_l_linear_map _ (proj1 Ha)) in Hx. injection Hx as <-.
  rewrite (hash_l_linear_map _ (proj1 Hb)) in Hy. injection Hy as <-.
  unfold add_xor. by rewrite (proj1 Hxb), (proj1 Hyb).
Qed.

Lemma hash_l_linear_witness :
  let a := map Z.of_nat (seq 0 64) in
  let b := replicate 64 255 in
  is_block a /\ is_block b /\
  (c ← add_xor a b; _hash_l c)
  = (x ← _hash_l a; y ← _hash_l b; add_xor x y).
Proof.
  assert (Ha : is_block (map Z.of_nat (seq 0 64))) by (by split).
  assert (Hb : is_block (replicate 64 255)) by (by split).
  split; [exact Ha|]. split; [exact Hb|]. by apply hash_l_linear.
Defined.

End gosthash_facts.

(** * Properties of the signature module *)

Module gostsignature_facts.

Import utils gostsignature gostsignature_spec.

(** ** The constructor *)

Lemma for_each_ok (idx : list nat) (body : nat -> result unit) :
  (forall i, i ∈ idx -> body i = Ok tt) -> for_each idx body = Ok tt.
Proof.
  induction idx as [|i idx IH]; intros H; simpl; [done|].
  rewrite (H i) by apply list_elem_of_here. simpl.
  apply IH. intros j Hj. apply H. by apply list_elem_of_further.
Qed.

Lemma for_each_inv (idx : list nat) (body : nat -> result unit) :
  for_each idx body = Ok tt -> forall i, i ∈ idx -> body i = Ok tt.
Proof.
  induction idx as [|i idx IH]; intros H j Hj.
  - by apply elem_of_nil in Hj.
  - simpl in H. destruct (body i) as [[]| |] eqn:Hi; simpl in H; try done.
    apply elem_of_cons in Hj as [->|Hj]; [done|]. by apply IH.
Qed.

Lemma guard_body_ok (p q : Z) (k : Z) :
  q <> 0 ->
  (l ← pymod (p ^ k) q; r ← pymod 1 q;
   if l =? r then Raise invalid_curve else Ok tt) = Ok tt
  <-> p ^ k mod q <> 1 mod q.
Proof.
  intros Hq. unfold pymod.
  destruct (Z.eqb_spec q 0); [done|]. simpl.
  destruct (Z.eqb_spec (p ^ k mod q) (1 mod q)); split; done.
Qed.

Lemma pow_mods_lookup (p q : Z) (n : nat) :
  q <> 0 ->
  forall (k : nat) (acc : Z) (j : nat),
    acc mod q = p ^ Z.of_nat k mod q ->
    (j < n)%nat ->
    pow_mods p q acc n !! j = Some (p ^ Z.of_nat (k + 1 + j) mod q).
Proof.
  intros Hq. induction n as [|n IH]; intros k acc j Hacc Hj; [lia|].
  simpl.
  assert (Hstep : (acc * p) mod q = p ^ Z.of_nat (k + 1) mod q).
  { rewrite <- Z.mul_mod_idemp_l, Hacc, Z.mul_mod_idemp_l by done.
    f_equal. rewrite Nat2Z.inj_add, Z.pow_add_r by lia.
    by rewrite Z.pow_1_r. }
  destruct j as [|j]; simpl.
  - rewrite Hstep. do 3 f_equal. lia.
  - rewrite (IH (k + 1)%nat _ j); [do 3 f_equal; lia| |lia].
    by rewrite Z.mod_mod.
Qed.

Lemma guard_256_holds (p q : Z) :
  q <> 0 -> guard_256 p q = true -> guard_holds MODE_256 p q.
Proof.
  intros Hq H i Hi. change (MODE_256 =? MODE_256) with true. simpl.
  unfold guard_256 in H. rewrite forallb_forall in H.
  destruct i as [|i]; [lia|].
  pose proof (pow_mods_lookup p q 31 Hq 0 1 i eq_refl ltac:(lia)) as Hl.
  apply list_elem_of_lookup_2, list_elem_of_In, H in Hl.
  apply negb_true_iff, Z.eqb_neq in Hl.
  by replace (Z.of_nat (S i)) with (Z.of_nat (0 + 1 + i)) by lia.
Qed.

Lemma guard_body_cases (q v : Z) :
  q <> 0 ->
  (l ← pymod v q; r ← pymod 1 q;
   if l =? r then Raise invalid_curve else Ok tt)
  = if v mod q =? 1 mod q then Raise invalid_curve else Ok tt.
Proof.
  intros Hq. unfold pymod. by destruct (Z.eqb_spec q 0).
Qed.

Lemma for_each_guard (q : Z) (f : nat -> Z) (body : nat -> result unit)
  (idx : list nat) :
  (forall i, body i
             = if f i mod q =? 1 mod q then Raise invalid_curve else Ok tt) ->
  (for_each idx body = Ok tt /\ forall i, i ∈ idx -> f i mod q <> 1 mod q)
  \/ (for_each idx body = Raise invalid_curve /\
      exists i, i ∈ idx /\ f i mod q = 1 mod q).
Proof.
  intros Hbody. induction idx as [|i idx IH].
  - left. split; [done|]. intros i Hi. by apply elem_of_nil in Hi.
  - cbn [for_each]. rewrite Hbody.
    destruct (Z.eqb_spec (f i mod q) (1 mod q)) as [Heq|Hne].
    + right. split; [done|]. exists i. split; [apply list_elem_of_here|done].
    + cbn [mbind result_bind].
      destruct IH as [[-> Hall]|[-> (j & Hj & Hjeq)]].
      * left. split; [done|]. intros j Hj.
        apply elem_of_cons in Hj as [->|Hj]; [done|by apply Hall].
      * right. split; [done|]. exists j.
        split; [by apply list_elem_of_further|done].
Qed.

(** [__init__] on canonical parameters: the exact conditions under which
    it returns. *)
Lemma init_canonical (fuel : nat) (mode p a b : Z) (e d : option Z)
  (m q x y : Z) (u v : option Z) (self : GOST34102012) :
  __init__ fuel mode p (Some a) (Some b) e d m q (Some x) (Some y) u v
  = Ok self
  <-> (mode = MODE_256 \/ mode = MODE_512) /\
      m <> p /\ q <> 0 /\ p <> 0 /\
      guard_holds mode p q /\ order_accepted mode q /\
      (y * y) mod p = (x ^ 3 + x * a + b) mod p /\
      self = mkGOST34102012 p a b e d m q x y u v (size_of_mode mode).
Proof.
  unfold __init__, guard_holds, order_accepted, size_of_mode.
  destruct (Z.eqb_spec q 0) as [->|Hq].
  { split; [|by intuition].
    destruct (negb _); [done|]. cbn [mbind result_bind].
    destruct (m =? p); [done|].
    destruct (mode =? MODE_256); cbn; done. }
  pose proof (for_each_guard q (fun i => p ^ Z.of_nat i) _ (seq 1 31)
                (fun i => guard_body_cases q (p ^ Z.of_nat i) Hq)) as H256.
  pose proof (for_each_guard q (fun _ => p ^ 1) _ (seq 1 131)
                (fun _ => guard_body_cases q (p ^ 1) Hq)) as H512.
  remember (for_each (seq 1 31) _) as loop256 eqn:E256 in H256 |- *.
  remember (for_each (seq 1 131) _) as loop512 eqn:E512 in H512 |- *.
  clear E256 E512.
  unfold MODE_256, MODE_512 in *.
  destruct (Z.eqb_spec mode 1) as [->|Hm1];
    [|destruct (Z.eqb_spec mode 2) as [->|Hm2]];
    cbn [negb orb mbind result_bind].
  - destruct (Z.eqb_spec m p) as [Hmp|Hmp]; [by intuition|].
    destruct H256 as [[-> Hall]|[-> (i & Hi & Heq)]];
      cbn [mbind result_bind].
    + assert (Hguard : forall i : nat,
                 (1 <= i <= 31)%nat -> p ^ Z.of_nat i mod q <> 1 mod q).
      { intros i Hi. apply Hall, elem_of_seq. lia. }
      destruct (Z.ltb_spec q (2 ^ 254)); cbn [orb mbind result_bind].
      { split; [done|]. intros (_ & _ & _ & _ & _ & ? & _). lia. }
      destruct (Z.gtb_spec q (2 ^ 256)); cbn [orb mbind result_bind].
      { split; [done|]. intros (_ & _ & _ & _ & _ & ? & _). lia. }
      unfold pymod. destruct (Z.eqb_spec p 0) as [->|Hp].
      { split; [done|]. by intuition. }
      cbn [mbind result_bind].
      destruct (Z.eqb_spec (y * y mod p) ((x ^ 3 + x * a + b) mod p));
        cbn [negb].
      * split; [intros [= <-]|intros (_ & _ & _ & _ & _ & _ & _ & ->)];
          [|done].
        repeat split; try done; try lia.
      * split; [done|]. by intuition.
    + split; [done|]. intros (_ & _ & _ & _ & Hguard & _). exfalso.
      apply elem_of_seq in Hi. apply (Hguard i); [lia|done].
  - destruct (Z.eqb_spec m p) as [Hmp|Hmp]; [by intuition|].
    destruct H512 as [[-> Hall]|[-> (i & Hi & Heq)]];
      cbn [mbind result_bind].
    + assert (Hguard : p ^ 1 mod q <> 1 mod q).
      { apply (Hall 1%nat), elem_of_seq. lia. }
      destruct (Z.ltb_spec q (2 ^ 508)); cbn [orb mbind result_bind].
      { split; [done|]. intros (_ & _ & _ & _ & _ & ? & _). lia. }
      destruct (Z.gtb_spec q (2 ^ 512)); cbn [orb mbind result_bind].
      { split; [done|]. intros (_ & _ & _ & _ & _ & ? & _). lia. }
      unfold pymod. destruct (Z.eqb_spec p 0) as [->|Hp].
      { split; [done|]. by intuition. }
      cbn [mbind result_bind].
      destruct (Z.eqb_spec (y * y mod p) ((x ^ 3 + x * a + b) mod p));
        cbn [negb].
      * split; [intros [= <-]|intros (_ & _ & _ & _ & _ & _ & _ & ->)];
          [|done].
        repeat split; try done; try lia.
      * split; [done|]. by intuition.
    + split; [done|]. intros (_ & _ & _ & _ & Hguard & _). done.
  - split; [done|]. intros ([?|?] & _); done.
Qed.

Lemma new_try_canonical (fuel : nat) (mode : Z) (curve : gmap string Z)
  (p a b m q x y : Z) :
  is_canonical_only curve = true ->
  curve !! "p" = Some p -> curve !! "a" = Some a -> curve !! "b" = Some b ->
  curve !! "m" = Some m -> curve !! "q" = Some q ->
  curve !! "x" = Some x -> curve !! "y" = Some y ->
  new_try fuel mode curve
  = (self ← __init__ fuel mode p (Some a) (Some b) None None m q
              (Some x) (Some y) None None;
     Ok (Some self)).
Proof.
  intros Hc Hp Ha Hb Hm Hq Hx Hy. unfold new_try.
  assert (has_key curve "e" = false) as He.
  { unfold is_canonical_only in Hc. by destruct (has_key curve "e"). }
  unfold is_edvards_and_canonical, is_edvards_only.
  rewrite He, Hc. cbn [andb].
  unfold dict_get. by rewrite Hp, Ha, Hb, Hm, Hq, Hx, Hy.
Qed.

(** [new] on a mapping with canonical parameters that pass the tests of
    [__init__] returns the context holding them. *)
Lemma new_canonical (fuel : nat) (mode : Z) (curve : gmap string Z)
  (p a b m q x y : Z) :
  is_canonical_only curve = true ->
  curve !! "p" = Some p -> curve !! "a" = Some a -> curve !! "b" = Some b ->
  curve !! "m" = Some m -> curve !! "q" = Some q ->
  curve !! "x" = Some x -> curve !! "y" = Some y ->
  (mode = MODE_256 \/ mode = MODE_512) ->
  m <> p -> q <> 0 -> p <> 0 ->
  guard_holds mode p q -> order_accepted mode q ->
  (y * y) mod p = (x ^ 3 + x * a + b) mod p ->
  new fuel mode curve
  = Ok (mkGOST34102012 p a b None None m q x y None None
          (size_of_mode mode)).
Proof.
  intros Hc Hp Ha Hb Hm Hq Hx Hy Hmode Hmp Hq0 Hp0 Hg Ho He.
  unfold new.
  rewrite (new_try_canonical fuel mode curve p a b m q x y) by done.
  rewrite (proj2 (init_canonical fuel mode p a b None None m q x y None None
                    (mkGOST34102012 p a b None None m q x y None None
                       (size_of_mode mode)))); [done|].
  by repeat split.
Qed.

Ltac solve_lookup := vm_compute; reflexivity.
Ltac solve_le := vm_compute; discriminate.

Lemma new_paramSetB (fuel : nat) :
  new fuel MODE_256 paramSetB = Ok paramSetB_context.
Proof.
  apply (new_canonical fuel MODE_256 paramSetB).
  1-8: solve_lookup.
  - by left.
  - discriminate.
  - discriminate.
  - discriminate.
  - apply guard_256_holds; [discriminate|vm_compute; reflexivity].
  - split; solve_le.
  - solve_lookup.
Qed.

(** C2 (fails): the M512 loop tests [p ** 1] at each of its 131 rounds.
    With the parameters of [paramSetA_512] and [q = p + 1], where
    [p^2 = 1 (mod q)], the context is constructed. *)
Theorem m512_guard_tests_first_power_only (fuel : nat) :
  let p := 2 ^ 512 - 569 in
  let q := 2 ^ 512 - 568 in
  (exists ctx,
      new fuel MODE_512 (<["q" := q]> paramSetA_512) = Ok ctx /\
      _p ctx = p /\ _q ctx = q) /\
  (p ^ 2) mod q = 1 mod q.
Proof.
  split; [|vm_compute; reflexivity].
  eexists. split.
  { apply (new_canonical fuel MODE_512).
    1-8: solve_lookup.
    - by right.
    - discriminate.
    - discriminate.
    - discriminate.
    - vm_compute. discriminate.
    - split; solve_le.
    - solve_lookup. }
  split; vm_compute; reflexivity.
Qed.

(** C5 (fails): the upper bound is tested with [q > 2 ** 256] and
    [q > 2 ** 512], so [q = 2^256] is accepted in M256 and [q = 2^512] in
    M512. *)
Theorem order_upper_bound_accepted (fuel : nat) :
  (exists ctx,
      new fuel MODE_256 (<["q" := 2 ^ 256]> paramSetB) = Ok ctx /\
      _q ctx = 2 ^ 256) /\
  (exists ctx,
      new fuel MODE_512 (<["q" := 2 ^ 512]> paramSetA_512) = Ok ctx /\
      _q ctx = 2 ^ 512).
Proof.
  split; eexists.
  - split.
    { apply (new_canonical fuel MODE_256).
      1-8: solve_lookup.
      - by left.
      - discriminate.
      - discriminate.
      - discriminate.
      - apply guard_256_holds; [discriminate|vm_compute; reflexivity].
      - split; solve_le.
      - solve_lookup. }
    vm_compute. reflexivity.
  - split.
    { apply (new_canonical fuel MODE_512).
      1-8: solve_lookup.
      - by right.
      - discriminate.
      - discriminate.
      - discriminate.
      - vm_compute. discriminate.
      - split; solve_le.
      - solve_lookup. }
    vm_compute. reflexivity.
Qed.

(** ** The private-key buffer *)

(** Binding a variable to a new buffer leaves every existing buffer as it
    is. *)
Lemma alloc_lookup (h : store) (v : bytes) (l : loc) :
  is_Some (h !! l) -> (alloc h v).2 !! l = h !! l.
Proof.
  intros Hl. unfold alloc. simpl.
  apply lookup_insert_ne. intros <-.
  apply (is_fresh (dom h)). by apply elem_of_dom.
Qed.

Lemma sign_inner_frame (self : GOST34102012) (rand_k : option bytes)
  (urandom : nat -> bytes) (l : loc) (fuel : nat) :
  forall h st,
    is_Some (h !! l) ->
    (sign_inner fuel self rand_k urandom h st).2 !! l = h !! l.
Proof.
  induction fuel as [|fuel IH]; intros h st Hl; simpl; [done|].
  repeat (case_match; simpl; try done); try by apply IH.
  by apply (alloc_lookup h).
Qed.


Lemma sign_outer_frame (self : GOST34102012) (rand_k : option bytes)
  (urandom : nat -> bytes) (sign_e : Z) (l : loc) (fuel : nat) :
  forall h st,
    is_Some (h !! l) ->
    (sign_outer fuel self rand_k urandom sign_e h st).2 !! l = h !! l.
Proof.
  induction fuel as [|fuel IH]; intros h st Hl; [done|].
  pose proof (sign_inner_frame self rand_k urandom l (S fuel) h st Hl)
    as Hin.
  cbn [sign_outer].
  destruct (int_to_bytearray _ _); try done.
  destruct (negb _); [done|].
  destruct (sign_inner (S fuel) _ _ _ _ _) as [[st'| |] h'];
    cbn [snd] in Hin; try done.
  destruct (pymod _ _); try done.
  rewrite IH; [done|]. by rewrite Hin.
Qed.

(** Whatever the outcome of [sign], the buffer the caller passed as
    [private_key] holds what it held before the call. *)
Lemma sign_frame (fuel : nat) (self : GOST34102012)
  (urandom : nat -> bytes) (h : store) (private_key : loc)
  (digest : bytes) (rand_k : option bytes) :
  is_Some (h !! private_key) ->
  (sign fuel self urandom h private_key digest rand_k).2 !! private_key
  = h !! private_key.
Proof.
  intros Hl. unfold sign.
  destruct (negb _); [done|].
  match goal with |- context [match ?r with _ => _ end] =>
    destruct r as [sign_e| |] end; try done.
  pose proof (sign_outer_frame self rand_k urandom sign_e private_key fuel
                h (mkLocals private_key 0 0 0 0) Hl) as Hout.
  destruct (sign_outer _ _ _ _ _ _ _) as [[st| |] h'];
    cbn [snd] in Hout; try done.
  destruct (_ ≫= _) as [[r s]| |]; try done.
  rewrite <- Hout. apply (alloc_lookup h'). by rewrite Hout.
Qed.

Lemma public_key_generate_frame (fuel : nat) (self : GOST34102012)
  (h : store) (private_key : loc) :
  (public_key_generate fuel self h private_key).2 = h.
Proof. unfold public_key_generate. by destruct (negb _). Qed.

(** C3 (fails): [sign] and [public_key_generate] bind their local
    [private_key] to a new object and never write to the buffer they were
    given.  With the context of [paramSetB] and the 32-byte key of value
    1, the caller's buffer still holds the key after the wrong-size
    [rand_k] error of [sign], after a successful [sign], and after
    [public_key_generate]. *)
Theorem private_key_buffer_not_wiped (urandom : nat -> bytes) :
  let key := replicate 31 0 ++ [1] in
  let digest := replicate 31 0 ++ [2] in
  let h : store := {[ 0%nat := key ]} in
  new 8 MODE_256 paramSetB = Ok paramSetB_context /\
  length key = _size paramSetB_context /\
  compare_to_zero key = false /\
  (exists h',
      sign 8 paramSetB_context urandom h 0%nat digest (Some [1])
      = (Raise (ValueError "ValueError: invalid random value size"), h') /\
      deref h' 0%nat = key) /\
  (exists signature h',
      sign 8 paramSetB_context urandom h 0%nat digest (Some key)
      = (Ok signature, h') /\
      deref h' 0%nat = key) /\
  (exists public_key h',
      public_key_generate 8 paramSetB_context h 0%nat = (Ok public_key, h') /\
      deref h' 0%nat = key).
Proof.
  split; [apply new_paramSetB|].
  split; [reflexivity|]. split; [reflexivity|].
  repeat split; repeat eexists; vm_compute; reflexivity.
Qed.

(** ** [_mul_point] *)

Section double_and_add.

Variable add : Z -> Z -> Z -> Z -> result (Z * Z).

(** Once the accumulator holds a point, the textbook loop and the loop of
    [_mul_point] perform the same additions. *)
Lemma double_and_add_some (fuel : nat) :
  forall k R N,
    double_and_add fuel add k R (Some N)
    = (res ← mul_point_loop fuel add k (fst R) (snd R) (fst N) (snd N);
       Ok (Some res)).
Proof.
  induction fuel as [|fuel IH]; intros k [xr yr] [xn yn]; simpl; [done|].
  destruct (k =? 0); simpl; [done|].
  destruct (Z.land k 1 =? 1); simpl.
  - destruct (add xn xr yn yr) as [[xs ys]| |]; simpl; [|done|done].
    destruct (add xr xr yr yr) as [[xd yd]| |]; simpl; [|done|done].
    apply (IH _ (xd, yd) (xs, ys)).
  - destruct (add xr xr yr yr) as [[xd yd]| |]; simpl; [|done|done].
    apply (IH _ (xd, yd) (xn, yn)).
Qed.

Lemma land_1 (k : Z) : Z.land k 1 = k mod 2.
Proof. change 1 with (Z.ones 1). apply Z.land_ones. lia. Qed.

Lemma shiftr_1 (k : Z) : Z.shiftr k 1 = k / 2.
Proof. by rewrite Z.shiftr_div_pow2 by lia. Qed.

Lemma land_1_pred (k : Z) :
  Z.land k 1 = 1 -> Z.land (k - 1) 1 = 0 /\ Z.shiftr (k - 1) 1 = Z.shiftr k 1.
Proof.
  rewrite !land_1, !shiftr_1. intros H.
  pose proof (Z.div_mod k 2 ltac:(lia)) as Hk.
  replace (k - 1) with (0 + (k / 2) * 2) by lia.
  rewrite Z.mod_add, Z.div_add by lia. split; reflexivity.
Qed.

Lemma land_1_even (k : Z) :
  Z.land k 1 <> 1 ->
  Z.land (k - 1) 1 = 1 /\ Z.shiftr (k - 1) 1 = Z.shiftr k 1 - 1.
Proof.
  rewrite !land_1, !shiftr_1. intros H.
  pose proof (Z.div_mod k 2 ltac:(lia)) as Hk.
  pose proof (Z.mod_pos_bound k 2 ltac:(lia)).
  replace (k - 1) with (1 + (k / 2 - 1) * 2) by lia.
  rewrite Z.mod_add, Z.div_add by lia. split; reflexivity.
Qed.

(** Below the lowest set bit of [k] the textbook accumulator is still the
    point at infinity, while [k - 1] has ones there: [_mul_point] adds the
    running double to itself, which is the doubling. *)
Lemma double_and_add_none (fuel : nat) :
  forall k R res,
    1 <= k ->
    double_and_add fuel add k R None = Ok (Some res) ->
    mul_point_loop fuel add (k - 1) (fst R) (snd R) (fst R) (snd R) = Ok res.
Proof.
  induction fuel as [|fuel IH]; intros k [xr yr] res Hk H; simpl in *;
    [done|].
  destruct (Z.eqb_spec k 0) as [|_]; [lia|].
  destruct (Z.eqb_spec (Z.land k 1) 1) as [Hbit|Hbit]; simpl in H.
  - destruct (land_1_pred k Hbit) as [Hb Hs].
    destruct (add xr xr yr yr) as [[xd yd]| |] eqn:Hd; simpl in H;
      try done.
    rewrite (double_and_add_some fuel _ (xd, yd) (xr, yr)) in H.
    simpl in H.
    destruct (Z.eqb_spec (k - 1) 0) as [Hk1|Hk1].
    + replace (Z.shiftr k 1) with 0 in H by (rewrite <- Hs, Hk1; done).
      destruct fuel; simpl in H; [done|]. by inversion H.
    + rewrite Hb, Hs. simpl.
      destruct (mul_point_loop _ _ _ _ _ _ _); simpl in H; try done.
      by inversion H.
  - destruct (land_1_even k Hbit) as [Hb Hs].
    destruct (Z.eqb_spec (k - 1) 0) as [Hk1|Hk1].
    { exfalso. apply Hbit. by replace k with 1 by lia. }
    rewrite Hb, Hs. simpl.
    destruct (add xr xr yr yr) as [[xd yd]| |] eqn:Hd; simpl in H;
      try done.
    simpl. apply (IH _ (xd, yd) res); [|done].
    rewrite shiftr_1. rewrite land_1 in Hbit.
    pose proof (Z.mod_pos_bound k 2 ltac:(lia)).
    pose proof (Z.div_mod k 2 ltac:(lia)). lia.
Qed.

End double_and_add.

(** For a point other than [(0, 0)] and a scalar [k >= 1], whenever the
    textbook double-and-add returns a point, [_mul_point] returns that
    point. *)
Lemma mul_point_double_and_add (fuel : nat) (self : GOST34102012) (k : Z)
  (P res : Z * Z) :
  1 <= k ->
  truthy (fst P) || truthy (snd P) = true ->
  scalar_multiple fuel self k P = Ok (Some res) ->
  _mul_point fuel self k (Some P) = Ok res.
Proof.
  intros Hk HP H. unfold _mul_point. destruct P as [x y]. simpl in HP.
  rewrite HP.
  apply (double_and_add_none (_add fuel self) fuel k (x, y) res Hk H).
Qed.

(** The same for the base point, when [_mul_point] is called without a
    point. *)
Lemma mul_point_base_double_and_add (fuel : nat) (self : GOST34102012)
  (k : Z) (res : Z * Z) :
  1 <= k ->
  scalar_multiple fuel self k (_x self, _y self) = Ok (Some res) ->
  _mul_point fuel self k None = Ok res.
Proof.
  intros Hk H. unfold _mul_point.
  apply (double_and_add_none (_add fuel self) fuel k (_x self, _y self)
           res Hk H).
Qed.

Lemma new_curve_through_origin (fuel : nat) :
  new fuel MODE_256 curve_through_origin = Ok curve_through_origin_context.
Proof.
  apply (new_canonical fuel MODE_256 curve_through_origin).
  1-8: solve_lookup.
  - by left.
  - discriminate.
  - discriminate.
  - discriminate.
  - apply guard_256_holds; [discriminate|vm_compute; reflexivity].
  - split; solve_le.
  - solve_lookup.
Qed.

(** C4 (fails): [_mul_point] tests [x_op or y_op], so the point [(0, 0)]
    counts as no point and the base point is multiplied instead.  On the
    curve [y^2 = x^3 - 2 x], which the constructor accepts and on which
    [(0, 0)] lies, the textbook double-and-add gives [[1](0, 0) = (0, 0)]
    and [_mul_point(1, 0, 0)] returns the base point [(2, 2)]. *)
Theorem mul_point_origin_is_base_point (fuel : nat) :
  let ctx := curve_through_origin_context in
  new fuel MODE_256 curve_through_origin = Ok ctx /\
  on_curve ctx (0, 0) = true /\
  scalar_multiple 2 ctx 1 (0, 0) = Ok (Some (0, 0)) /\
  _mul_point 2 ctx 1 (Some (0, 0)) = Ok (2, 2) /\
  (forall fuel k,
      _mul_point fuel ctx k (Some (0, 0)) = _mul_point fuel ctx k None).
Proof.
  split; [apply new_curve_through_origin|].
  repeat split; vm_compute; reflexivity.
Qed.

(** ** Exceptions of [verify] and [new] *)

Lemma raises_only_ok {A : Type} (P : exn -> Prop) (a : A) :
  raises_only P (Ok a).
Proof. by intros e. Qed.

Lemma raises_only_out_of_fuel {A : Type} (P : exn -> Prop) :
  raises_only P (@OutOfFuel A).
Proof. by intros e. Qed.

Lemma raises_only_bind {A B : Type} (P : exn -> Prop) (m : result A)
  (f : A -> result B) :
  raises_only P m -> (forall a, raises_only P (f a)) ->
  raises_only P (m ≫= f).
Proof.
  intros Hm Hf e. destruct m as [a|e'|]; simpl; [apply Hf| |done].
  intros [= ->]. by apply Hm.
Qed.

Lemma raises_only_weaken {A : Type} (P Q : exn -> Prop) (r : result A) :
  (forall e, P e -> Q e) -> raises_only P r -> raises_only Q r.
Proof. intros HPQ Hr e He. by apply HPQ, Hr. Qed.

Lemma pymod_raises (a b : Z) : raises_only arithmetic_exn (pymod a b).
Proof.
  unfold pymod. intros e. destruct (b =? 0); [|done].
  intros [= <-]. by left.
Qed.

Lemma int_to_bytearray_raises (number : Z) (size : nat) :
  raises_only arithmetic_exn (int_to_bytearray number size).
Proof.
  unfold int_to_bytearray. intros e. destruct (_ && _); [done|].
  intros [= <-]. right. by eexists.
Qed.

Lemma gcdex_raises (fuel : nat) :
  forall value n_mod, raises_only arithmetic_exn (gcdex fuel value n_mod).
Proof.
  induction fuel as [|fuel IH]; intros value n_mod; simpl.
  - apply raises_only_out_of_fuel.
  - destruct (n_mod =? 0); [apply raises_only_ok|].
    apply raises_only_bind; [apply IH|].
    intros [[gcd x_value] y_value]. apply raises_only_ok.
Qed.

Lemma invert_raises (fuel : nat) (value n_mod : Z) :
  raises_only arithmetic_exn (_invert fuel value n_mod).
Proof.
  unfold _invert. apply raises_only_bind; [apply gcdex_raises|].
  intros [[gcd res] y_value]. apply raises_only_ok.
Qed.

Ltac raises_step :=
  first
    [ apply raises_only_ok
    | apply raises_only_out_of_fuel
    | apply pymod_raises
    | apply int_to_bytearray_raises
    | apply invert_raises
    | apply raises_only_bind; [|intros ?] ].

Lemma add_raises (fuel : nat) (self : GOST34102012) (x_1 x_2 y_1 y_2 : Z) :
  raises_only arithmetic_exn (_add fuel self x_1 x_2 y_1 y_2).
Proof.
  unfold _add. repeat raises_step.
  destruct (_ && _); repeat raises_step.
Qed.

Lemma mul_point_loop_raises (add : Z -> Z -> Z -> Z -> result (Z * Z))
  (fuel : nat) :
  (forall a b c d, raises_only arithmetic_exn (add a b c d)) ->
  forall value x_prev y_prev x_next y_next,
    raises_only arithmetic_exn
      (mul_point_loop fuel add value x_prev y_prev x_next y_next).
Proof.
  intros Hadd. induction fuel as [|fuel IH]; intros; simpl.
  - apply raises_only_out_of_fuel.
  - destruct (value =? 0); [apply raises_only_ok|].
    apply raises_only_bind.
    { destruct (_ =? 1); [apply Hadd|apply raises_only_ok]. }
    intros [xn yn]. apply raises_only_bind; [apply Hadd|].
    intros [xp yp]. apply IH.
Qed.

Lemma mul_point_raises (fuel : nat) (self : GOST34102012) (mul_value : Z)
  (op : option (Z * Z)) :
  raises_only arithmetic_exn (_mul_point fuel self mul_value op).
Proof.
  unfold _mul_point.
  destruct op as [[x_op y_op]|]; [destruct (_ || _)|];
    apply mul_point_loop_raises; intros; apply add_raises.
Qed.

(** C7: [verify] raises a [ValueError] if and only if the signature is
    not [2 * size] bytes long; and on a signature of that length whose
    [r] or [s] is outside [(0, q)] it returns [False]. *)
Theorem verify_rejects (fuel : nat) (self : GOST34102012)
  (public_key digest signature : bytes) :
  ((exists msg,
       verify fuel self public_key digest signature = Raise (ValueError msg))
   <-> length signature <> (2 * _size self)%nat) /\
  (length signature = (2 * _size self)%nat ->
   signature_in_range self signature = false ->
   verify fuel self public_key digest signature = Ok false).
Proof.
  unfold verify, signature_in_range.
  destruct (Nat.eqb_spec (length signature) (_size self * 2)) as [Hlen|Hlen];
    simpl.
  - split.
    + split; [|lia]. intros [msg H]. exfalso.
      destruct (_ || _) in H; [done|].
      revert H.
      match goal with |- ?r = _ -> _ =>
        assert (Hr : raises_only arithmetic_exn r) end.
      { repeat first [apply mul_point_raises | apply add_raises | raises_step]. }
      intros H. destruct (Hr _ H) as [?|[? ?]]; done.
    + intros _ Hrange.
      match goal with |- (if ?c then _ else _) = _ =>
        replace c with true; [done|] end.
      symmetry.
      repeat (apply andb_false_iff in Hrange as [Hrange|Hrange]);
        [apply Z.ltb_ge in Hrange|apply Z.ltb_ge in Hrange
        |apply Z.ltb_ge in Hrange|apply Z.ltb_ge in Hrange];
        repeat (apply orb_true_iff; first [left; lia | right]);
        repeat (apply orb_true_iff; left); lia.
  - split; [|lia]. split; [lia|]. intros _. by eexists.
Qed.

Lemma verify_rejects_witness :
  let self := paramSetB_context in
  let signature := replicate 64 0 in
  length signature = (2 * _size self)%nat /\
  signature_in_range self signature = false /\
  verify 0 self [] [] signature = Ok false.
Proof.
  split; [reflexivity|]. split; [reflexivity|].
  apply (proj2 (verify_rejects 0 paramSetB_context [] [] (replicate 64 0)));
    reflexivity.
Defined.

Lemma for_each_raises (P : exn -> Prop) (body : nat -> result unit)
  (idx : list nat) :
  (forall i, raises_only P (body i)) -> raises_only P (for_each idx body).
Proof.
  intros Hbody. induction idx as [|i idx IH]; simpl.
  - apply raises_only_ok.
  - apply raises_only_bind; [apply Hbody|]. intros _. apply IH.
Qed.

Lemma arithmetic_init_exn {A : Type} (r : result A) :
  raises_only arithmetic_exn r -> raises_only init_exn r.
Proof. apply raises_only_weaken. intros e He. by left. Qed.

Lemma raise_type_error {A : Type} : raises_only init_exn (@Raise A TypeError).
Proof. intros e [= <-]. right. by left. Qed.

Lemma raise_value_error {A : Type} (msg : string) :
  raises_only init_exn (@Raise A (ValueError msg)).
Proof. intros e [= <-]. right. right. by eexists. Qed.

Ltac init_step :=
  first
    [ apply raises_only_ok
    | apply raise_type_error
    | apply raise_value_error
    | apply arithmetic_init_exn; first [apply pymod_raises | apply invert_raises]
    | apply raises_only_bind; [|intros ?] ].

Lemma edvards_to_canonical_raises (fuel : nat) (p : Z) (e d u v : option Z) :
  raises_only init_exn (_edvards_to_canonical fuel p e d u v).
Proof.
  unfold _edvards_to_canonical.
  destruct e, d; try apply raise_type_error.
  repeat init_step.
  destruct v; [|apply raise_type_error]. repeat init_step.
  destruct u; [|apply raise_type_error]. repeat init_step.
Qed.

Lemma init_raises (fuel : nat) (mode p : Z) (a b e d : option Z) (m q : Z)
  (x y u v : option Z) :
  raises_only init_exn (__init__ fuel mode p a b e d m q x y u v).
Proof.
  unfold __init__.
  destruct (negb _); [apply raise_value_error|].
  apply raises_only_bind.
  { destruct a, b, x, y; first [apply raises_only_ok
                               |apply edvards_to_canonical_raises]. }
  intros [[[a' b'] x'] y'].
  destruct (m =? p); [apply raise_value_error|].
  apply raises_only_bind.
  { destruct (mode =? MODE_256).
    - apply raises_only_bind.
      + apply for_each_raises. intros i. repeat init_step.
        destruct (_ =? _); init_step.
      + intros _. destruct (_ || _); init_step.
    - apply raises_only_bind.
      + apply for_each_raises. intros i. repeat init_step.
        destruct (_ =? _); init_step.
      + intros _. destruct (_ || _); init_step. }
  intros size. repeat init_step. destruct (negb _); init_step.
Qed.

Lemma dict_get_raises (curve : gmap string Z) (k : string) :
  raises_only (fun e => exists key, e = KeyError key) (dict_get curve k).
Proof.
  unfold dict_get. intros e. destruct (curve !! k); [done|].
  intros [= <-]. by eexists.
Qed.

Lemma dict_get_ok (curve : gmap string Z) (k : string) (v : Z) :
  dict_get curve k = Ok v -> has_key curve k = true.
Proof.
  unfold dict_get, has_key. destruct (curve !! k) eqn:Hk; [|done].
  intros _. apply bool_decide_eq_true. by eexists.
Qed.

Lemma dict_get_missing (curve : gmap string Z) (k : string) :
  has_key curve k = false -> dict_get curve k = Raise (KeyError k).
Proof.
  unfold dict_get, has_key. destruct (curve !! k) eqn:Hk; [|done].
  intros H. apply bool_decide_eq_false in H. destruct H. by eexists.
Qed.

Ltac new_try_step :=
  first
    [ apply raises_only_ok
    | apply (raises_only_weaken _ _ _ (fun e H => or_intror H)),
        dict_get_raises
    | apply (raises_only_weaken _ _ _ (fun e H => or_introl H)), init_raises
    | apply raises_only_bind; [|intros ?] ].

Lemma new_try_raises (fuel : nat) (mode : Z) (curve : gmap string Z) :
  raises_only new_try_exn (new_try fuel mode curve).
Proof.
  unfold new_try.
  destruct (is_edvards_and_canonical curve); [repeat new_try_step|].
  destruct (is_edvards_only curve); [repeat new_try_step|].
  destruct (is_canonical_only curve); repeat new_try_step.
Qed.

Ltac bind_cases H :=
  repeat match type of H with
         | (?m ≫= _) = _ =>
             let E := fresh "E" in
             destruct m eqn:E; simpl in H; try discriminate
         end.

Lemma new_try_none (fuel : nat) (mode : Z) (curve : gmap string Z) :
  new_try fuel mode curve = Ok None <-> no_shape_test curve = true.
Proof.
  unfold new_try, no_shape_test.
  destruct (is_edvards_and_canonical curve); simpl.
  { split; [|done]. intros H. bind_cases H. }
  destruct (is_edvards_only curve); simpl.
  { split; [|done]. intros H. bind_cases H. }
  destruct (is_canonical_only curve); simpl; [|done].
  split; [|done]. intros H. bind_cases H.
Qed.

Lemma new_try_some (fuel : nat) (mode : Z) (curve : gmap string Z)
  (self : GOST34102012) :
  new_try fuel mode curve = Ok (Some self) ->
  has_key curve "p" && has_key curve "m" && has_key curve "q" = true.
Proof.
  unfold new_try. intros H.
  destruct (is_edvards_and_canonical curve);
    [|destruct (is_edvards_only curve);
      [|destruct (is_canonical_only curve); [|done]]];
    bind_cases H;
    repeat match goal with
           | E : dict_get _ _ = Ok _ |- _ => apply dict_get_ok in E
           end;
    by repeat (apply andb_true_intro; split).
Qed.

Lemma new_try_missing_p (fuel : nat) (mode : Z) (curve : gmap string Z) :
  no_shape_test curve = false -> has_key curve "p" = false ->
  new_try fuel mode curve = Raise (KeyError "p").
Proof.
  unfold new_try, no_shape_test. intros Hno Hp.
  rewrite (dict_get_missing _ _ Hp).
  destruct (is_edvards_and_canonical curve); [done|].
  destruct (is_edvards_only curve); [done|].
  by destruct (is_canonical_only curve).
Qed.

(** C10 (amended): [new] reaches [return result] with [result] unbound,
    and raises [UnboundLocalError], exactly when none of its three tests
    on the keys [e d u v x y a b] holds.  It returns a context only when
    one of them holds and [p], [m], [q] are present; when one holds and
    [p] is missing it raises [KeyError]. *)
Theorem new_unbound_result (fuel : nat) (mode : Z) (curve : gmap string Z) :
  (new fuel mode curve = Raise (UnboundLocalError "result")
   <-> no_shape_test curve = true) /\
  (forall self,
      new fuel mode curve = Ok self ->
      no_shape_test curve = false /\
      has_key curve "p" && has_key curve "m" && has_key curve "q" = true) /\
  (no_shape_test curve = false -> has_key curve "p" = false ->
   new fuel mode curve = Raise (KeyError "p")).
Proof.
  pose proof (new_try_none fuel mode curve) as Hnone.
  pose proof (new_try_raises fuel mode curve) as Hraise.
  pose proof (new_try_some fuel mode curve) as Hsome.
  pose proof (new_try_missing_p fuel mode curve) as Hp.
  unfold new.
  destruct (new_try fuel mode curve) as [[self|]|e|] eqn:Htry.
  - assert (no_shape_test curve = false) as Hno.
    { destruct (no_shape_test curve); [|done].
      discriminate (proj2 Hnone eq_refl). }
    rewrite Hno. split; [done|]. split.
    + intros ? [= <-]. split; [done|]. by apply (Hsome self).
    + intros _ Hp'. discriminate (Hp Hno Hp').
  - rewrite (proj1 Hnone eq_refl). done.
  - assert (no_shape_test curve = false) as Hno.
    { destruct (no_shape_test curve); [|done].
      discriminate (proj2 Hnone eq_refl). }
    rewrite Hno. split; [|split].
    + split; [|done]. intros H. exfalso.
      destruct (Hraise e eq_refl) as [[[->|[? ->]]|[->|[? ->]]]|[? ->]];
        discriminate H.
    + intros self H. by destruct e.
    + intros _ Hp'. injection (Hp Hno Hp') as ->. done.
  - assert (no_shape_test curve = false) as Hno.
    { destruct (no_shape_test curve); [|done].
      discriminate (proj2 Hnone eq_refl). }
    rewrite Hno. split; [done|]. split; [done|].
    intros _ Hp'. discriminate (Hp Hno Hp').
Qed.

Lemma new_unbound_result_witness :
  let curve : gmap string Z :=
    <["p" := 7]> (<["e" := 1]> (<["d" := 2]> (<["m" := 8]> (<["q" := 8]>
    (<["u" := 3]> (<["v" := 4]> (<["x" := 5]> ∅))))))) in
  no_shape_test curve = true /\
  new 0 MODE_256 curve = Raise (UnboundLocalError "result").
Proof.
  split; [reflexivity|].
  apply (proj1 (new_unbound_result 0 MODE_256 _)). reflexivity.
Defined.

(** C10 as stated fails: a mapping with the keys [a b x y] only has none
    of the documented shapes, and [new] raises [KeyError] for [p] inside
    the [try] block; [paramSetB] with one more key has none of the
    documented shapes either, and [new] returns a context. *)
Lemma new_shape_counterexample :
  let curve : gmap string Z :=
    <["a" := 0]> (<["b" := 0]> (<["x" := 0]> (<["y" := 0]> ∅))) in
  documented_shape curve = false /\
  new 400 MODE_256 curve = Raise (KeyError "p") /\
  documented_shape (<["z" := 0]> paramSetB) = false /\
  exists self, new 400 MODE_256 (<["z" := 0]> paramSetB) = Ok self.
Proof.
  split; [vm_compute; reflexivity|].
  split; [vm_compute; reflexivity|].
  split; [vm_compute; reflexivity|].
  exists paramSetB_context.
  apply (new_canonical 400 MODE_256 (<["z" := 0]> paramSetB)).
  1-8: solve_lookup.
  - by left.
  - discriminate.
  - discriminate.
  - discriminate.
  - apply guard_256_holds; [discriminate|vm_compute; reflexivity].
  - split; solve_le.
  - solve_lookup.
Qed.

(** ** Further properties of the signature module *)

Lemma mul_point_loop_negative (add : Z -> Z -> Z -> Z -> result (Z * Z))
  (fuel : nat) :
  forall value x_prev y_prev x_next y_next res,
    value < 0 ->
    mul_point_loop fuel add value x_prev y_prev x_next y_next <> Ok res.
Proof.
  induction fuel as [|fuel IH]; intros value xp yp xn yn res Hv; [done|].
  cbn [mul_point_loop].
  destruct (Z.eqb_spec value 0) as [|_]; [lia|].
  destruct (if Z.land value 1 =? 1 then add xn xp yn yp else Ok (xn, yn))
    as [[xn' yn']| |]; cbn [mbind result_bind]; [|done|done].
  destruct (add xp xp yp yp) as [[xp' yp']| |]; cbn [mbind result_bind];
    [|done|done].
  apply IH. by apply Z.shiftr_neg.
Qed.

Lemma mul_point_nonpositive (fuel : nat) (self : GOST34102012)
  (mul_value : Z) (op : option (Z * Z)) (res : Z * Z) :
  mul_value <= 0 ->
  _mul_point fuel self mul_value op <> Ok res.
Proof.
  intros Hk. unfold _mul_point.
  destruct op as [[x_op y_op]|]; [destruct (_ || _)|];
    apply mul_point_loop_negative; lia.
Qed.

(** [_mul_point] with a multiplier below 1 never returns: [_bits] is run
    on a negative number, whose shifts never reach zero. *)
Theorem mul_point_nonpositive_never_returns (fuel : nat)
  (self : GOST34102012) (mul_value : Z) (op : option (Z * Z))
  (res : Z * Z) :
  mul_value <= 0 ->
  _mul_point fuel self mul_value op <> Ok res.
Proof.
  intros Hk Hres. by apply (mul_point_nonpositive fuel self mul_value op res).
Qed.

Lemma mul_point_nonpositive_never_returns_witness :
  0 <= 0 /\ _mul_point 1000 paramSetB_context 0 None <> Ok (1, 1).
Proof.
  split; [lia|]. apply mul_point_nonpositive_never_returns. lia.
Defined.

(** [public_key_generate] never returns a key for a private key of value
    zero. *)
Theorem public_key_generate_zero_never_returns (fuel : nat)
  (self : GOST34102012) (h : store) (private_key : loc) (res : bytes)
  (h' : store) :
  bytearray_to_int (deref h private_key) = 0 ->
  public_key_generate fuel self h private_key <> (Ok res, h').
Proof.
  intros Hk. unfold public_key_generate.
  destruct (negb _); [done|]. rewrite Hk.
  pose proof (mul_point_nonpositive fuel self 0 None) as Hm.
  destruct (_mul_point fuel self 0 None) as [pt| |];
    cbn [mbind result_bind]; [|done|done].
  by destruct (Hm pt).
Qed.

Lemma public_key_generate_zero_never_returns_witness :
  let h : store := {[ 0%nat := replicate 32 0 ]} in
  bytearray_to_int (deref h 0%nat) = 0 /\
  public_key_generate 1000 paramSetB_context h 0%nat <> (Ok [], h).
Proof.
  split; [reflexivity|].
  apply public_key_generate_zero_never_returns. reflexivity.
Defined.

(** Whatever [sign] does, the buffer the caller passed as [private_key]
    holds afterwards what it held before. *)
Theorem sign_leaves_key_buffer (fuel : nat) (self : GOST34102012)
  (urandom : nat -> bytes) (h : store) (private_key : loc)
  (digest : bytes) (rand_k : option bytes) :
  is_Some (h !! private_key) ->
  deref (sign fuel self urandom h private_key digest rand_k).2 private_key
  = deref h private_key.
Proof.
  intros Hl. unfold deref. by rewrite sign_frame.
Qed.

Lemma sign_leaves_key_buffer_witness :
  let key := replicate 31 0 ++ [1] in
  let h : store := {[ 0%nat := key ]} in
  is_Some (h !! 0%nat) /\
  deref (sign 8 paramSetB_context (fun _ => []) h 0%nat
           (replicate 31 0 ++ [2]) (Some [1])).2 0%nat
  = key.
Proof.
  split; [by eexists|].
  rewrite sign_leaves_key_buffer; [reflexivity|by eexists].
Defined.

(** For a scalar [k >= 1] and a point other than [(0, 0)], whenever the
    textbook double-and-add returns a point, [_mul_point] returns the
    same point. *)
Theorem mul_point_refines_double_and_add (fuel : nat)
  (self : GOST34102012) (k : Z) (P res : Z * Z) :
  1 <= k ->
  truthy (fst P) || truthy (snd P) = true ->
  scalar_multiple fuel self k P = Ok (Some res) ->
  _mul_point fuel self k (Some P) = Ok res.
Proof. apply mul_point_double_and_add. Qed.

Lemma mul_point_refines_double_and_add_witness :
  let P := (_x paramSetB_context, _y paramSetB_context) in
  1 <= 3 /\ truthy (fst P) || truthy (snd P) = true /\
  exists res,
    scalar_multiple 400 paramSetB_context 3 P = Ok (Some res) /\
    _mul_point 400 paramSetB_context 3 (Some P) = Ok res.
Proof.
  split; [lia|]. split; [reflexivity|].
  eexists. split; [vm_compute; reflexivity|].
  apply mul_point_refines_double_and_add;
    [lia|reflexivity|vm_compute; reflexivity].
Defined.

(** [__init__] on canonical parameters returns exactly when the mode is
    supported, [m <> p], [p] and [q] are not zero, the embedding test and
    the order test as coded pass, and the base point is on the curve. *)
Theorem constructor_accepts_iff (fuel : nat) (mode p a b : Z)
  (e d : option Z) (m q x y : Z) (u v : option Z) (self : GOST34102012) :
  __init__ fuel mode p (Some a) (Some b) e d m q (Some x) (Some y) u v
  = Ok self
  <-> (mode = MODE_256 \/ mode = MODE_512) /\
      m <> p /\ q <> 0 /\ p <> 0 /\
      guard_holds mode p q /\ order_accepted mode q /\
      (y * y) mod p = (x ^ 3 + x * a + b) mod p /\
      self = mkGOST34102012 p a b e d m q x y u v (size_of_mode mode).
Proof. apply init_canonical. Qed.

Lemma constructor_accepts_iff_witness :
  __init__ 0 MODE_256 (_p paramSetB_context) (Some (_a paramSetB_context))
    (Some (_b paramSetB_context)) None None (_m paramSetB_context)
    (_q paramSetB_context) (Some (_x paramSetB_context))
    (Some (_y paramSetB_context)) None None
  = Ok paramSetB_context.
Proof.
  apply constructor_accepts_iff.
  split; [by left|]. split; [discriminate|]. split; [discriminate|].
  split; [discriminate|].
  split; [apply guard_256_holds; [discriminate|vm_compute; reflexivity]|].
  split; [split; solve_le|]. split; [solve_lookup|reflexivity].
Defined.

(** [new] never raises [ValueError]: it raises nothing but [SystemExit],
    [UnboundLocalError], [TypeError], [KeyError] and the exceptions of the
    arithmetic helpers. *)
Theorem new_raises_only (fuel : nat) (mode : Z) (curve : gmap string Z) :
  raises_only new_exn (new fuel mode curve).
Proof.
  intros e. unfold new.
  pose proof (new_try_raises fuel mode curve) as Htry.
  destruct (new_try fuel mode curve) as [[self|]|e'|]; [done| | |done].
  - intros [= <-]. right. by left.
  - destruct (Htry e' eq_refl) as [[Ha|[->|[msg ->]]]|[key ->]].
    + destruct Ha as [->|[what ->]]; intros [= <-];
        do 4 right; [by left|right; by eexists].
    + intros [= <-]. right. right. by left.
    + intros [= <-]. by left.
    + intros [= <-]. do 3 right. left. by eexists.
Qed.

Lemma new_raises_only_witness :
  let curve : gmap string Z :=
    <["a" := 0]> (<["b" := 0]> (<["x" := 0]> (<["y" := 0]> ∅))) in
  new 0 MODE_256 curve = Raise (KeyError "p") /\ new_exn (KeyError "p").
Proof.
  split; [vm_compute; reflexivity|].
  apply (new_raises_only 0 MODE_256
           (<["a" := 0]> (<["b" := 0]> (<["x" := 0]> (<["y" := 0]> ∅))))).
  vm_compute. reflexivity.
Defined.

Lemma dict_get_present (curve : gmap string Z) (k : string) :
  has_key curve k = true -> exists v, dict_get curve k = Ok v.
Proof.
  unfold dict_get, has_key. intros H. apply bool_decide_eq_true in H.
  destruct H as [v ->]. by eexists.
Qed.

Lemma init_unsupported_mode (fuel : nat) (mode p : Z) (a b e d : option Z)
  (m q : Z) (x y u v : option Z) :
  mode <> MODE_256 -> mode <> MODE_512 ->
  __init__ fuel mode p a b e d m q x y u v
  = Raise (ValueError "ValueError: unsupported signature mode").
Proof.
  intros H1 H2. unfold __init__.
  destruct (Z.eqb_spec mode MODE_256); [done|].
  by destruct (Z.eqb_spec mode MODE_512).
Qed.

Ltac present k :=
  match goal with
  | H : has_key ?curve k = true |- _ =>
      let v := fresh "v" in
      let E := fresh "E" in
      destruct (dict_get_present curve k H) as [v E]; rewrite E;
      cbn [mbind result_bind]
  end.

(** With a mode other than [MODE_256] and [MODE_512], and a mapping that
    passes one of the shape tests and has [p], [m] and [q], [new] exits
    the process: the [ValueError] of the constructor is caught. *)
Theorem new_unsupported_mode_exits (fuel : nat) (mode : Z)
  (curve : gmap string Z) :
  mode <> MODE_256 -> mode <> MODE_512 ->
  no_shape_test curve = false ->
  has_key curve "p" && has_key curve "m" && has_key curve "q" = true ->
  new fuel mode curve = Raise SystemExit.
Proof.
  intros H1 H2 Hshape Hpmq.
  apply andb_prop in Hpmq as [Hpm Hq]. apply andb_prop in Hpm as [Hp Hm].
  unfold new, new_try, no_shape_test in *.
  unfold is_edvards_and_canonical, is_edvards_only, is_canonical_only in *.
  destruct (has_key curve "e") eqn:He, (has_key curve "d") eqn:Hd,
    (has_key curve "u") eqn:Hu, (has_key curve "v") eqn:Hv,
    (has_key curve "x") eqn:Hx, (has_key curve "y") eqn:Hy,
    (has_key curve "a") eqn:Ha, (has_key curve "b") eqn:Hb;
    cbn [andb orb negb] in Hshape |- *; try discriminate Hshape.
  - present "p". present "a". present "b". present "e". present "d".
    present "m". present "q". present "x". present "y". present "u".
    present "v". by rewrite init_unsupported_mode.
  - present "p". present "e". present "d". present "m". present "q".
    present "u". present "v". by rewrite init_unsupported_mode.
  - present "p". present "a". present "b". present "m". present "q".
    present "x". present "y". by rewrite init_unsupported_mode.
Qed.

Lemma new_unsupported_mode_exits_witness :
  3 <> MODE_256 /\ 3 <> MODE_512 /\ no_shape_test paramSetB = false /\
  has_key paramSetB "p" && has_key paramSetB "m" && has_key paramSetB "q"
  = true /\
  new 0 3 paramSetB = Raise SystemExit.
Proof.
  split; [discriminate|]. split; [discriminate|].
  split; [reflexivity|]. split; [reflexivity|].
  apply new_unsupported_mode_exits; [discriminate|discriminate|
                                      reflexivity|reflexivity].
Defined.

(** ** [_invert] and [_add] *)

Lemma mod_mod_half (b r : Z) : 0 < r < b -> 2 * (b mod r) < b.
Proof.
  intros H. pose proof (Z.mod_pos_bound b r ltac:(lia)) as Hm.
  pose proof (Z.div_mod b r ltac:(lia)) as Hd.
  assert (1 <= b / r) by (apply Z.div_le_lower_bound; lia).
  nia.
Qed.

Lemma log2_half (b c : Z) : 0 < c -> 2 * c < b -> Z.log2 c + 1 <= Z.log2 b.
Proof.
  intros Hc H. pose proof (Z.log2_double c Hc) as Hd.
  pose proof (Z.log2_le_mono (2 * c) b ltac:(lia)). lia.
Qed.

(** The recursion of [gcdex] ends within [2 log2(n_mod) + 3] calls. *)
Lemma gcdex_returns (fuel : nat) :
  forall value n_mod,
    0 <= n_mod ->
    (Z.to_nat (2 * Z.log2 n_mod + 3) <= fuel)%nat ->
    exists t, gcdex fuel value n_mod = Ok t.
Proof.
  induction fuel as [fuel IH] using lt_wf_ind. intros a b Hb Hfuel.
  pose proof (Z.log2_nonneg b) as Hlog.
  destruct fuel as [|f1]; [lia|]. cbn [gcdex].
  destruct (Z.eqb_spec b 0) as [->|Hb0]; [by eexists|].
  pose proof (Z.mod_pos_bound a b ltac:(lia)) as Hr.
  destruct f1 as [|f2]; [lia|]. cbn [gcdex].
  destruct (Z.eqb_spec (a mod b) 0) as [Hr0|Hr0]; [cbn; by eexists|].
  pose proof (Z.mod_pos_bound b (a mod b) ltac:(lia)) as Hr2.
  pose proof (mod_mod_half b (a mod b) ltac:(lia)) as Hhalf.
  destruct (Z.eqb_spec (b mod (a mod b)) 0) as [Hz|Hnz].
  - destruct f2 as [|f3]; [lia|]. cbn [gcdex]. rewrite Hz.
    cbn. by eexists.
  - destruct (IH f2 ltac:(lia) (a mod b) (b mod (a mod b)) ltac:(lia))
      as [[[g x] y] ->].
    + pose proof (log2_half b (b mod (a mod b)) ltac:(lia) Hhalf). lia.
    + cbn. by eexists.
Qed.

(** What [gcdex] returns on non-negative arguments: the greatest common
    divisor with Bezout coefficients of bounded size. *)
Lemma gcdex_sound (fuel : nat) :
  forall a b g x y,
    0 <= a -> 0 <= b ->
    gcdex fuel a b = Ok (g, x, y) ->
    g = Z.gcd a b /\ a * x + b * y = g /\
    (if b =? 0 then x = 1 /\ y = 0
     else Z.abs x <= b /\ Z.abs y <= Z.max a 1).
Proof.
  induction fuel as [|fuel IH]; intros a b g x y Ha Hb H; [done|].
  cbn [gcdex] in H.
  destruct (Z.eqb_spec b 0) as [->|Hb0].
  - inversion H; subst. rewrite Z.gcd_0_r.
    split; [lia|]. split; [lia|]. done.
  - pose proof (Z.mod_pos_bound a b ltac:(lia)) as Hr.
    pose proof (Z.div_mod a b ltac:(lia)) as Hd.
    assert (0 <= a / b) as Hq by (apply Z.div_pos; lia).
    destruct (gcdex fuel b (a mod b)) as [[[g' x'] y']| |] eqn:E;
      cbn in H; try discriminate.
    destruct (IH b (a mod b) g' x' y' ltac:(lia) ltac:(lia) E)
      as (Hg & Hbez & Hbd).
    injection H as <- <- <-.
    split; [|split].
    + rewrite Hg, (Z.gcd_comm b), Z.gcd_mod by lia. apply Z.gcd_comm.
    + nia.
    + destruct (Z.eqb_spec (a mod b) 0) as [Hz|Hnz].
      * destruct Hbd as [-> ->]. lia.
      * destruct Hbd as [Hx' Hy']. split; [lia|].
        assert (Z.abs (y' * (a / b)) <= b * (a / b)).
        { rewrite Z.abs_mul, (Z.abs_eq (a / b)) by lia. nia. }
        lia.
Qed.

(** [_invert(value, n_mod)] for [n_mod >= 2] coprime to [value], with
    room for [2 log2(n_mod) + 4] nested calls: the result is the inverse
    of [value] modulo [n_mod], in [[0, n_mod)]. *)
Theorem invert_is_modular_inverse (fuel : nat) (value n_mod : Z) :
  2 <= n_mod ->
  Z.gcd value n_mod = 1 ->
  (Z.to_nat (2 * Z.log2 n_mod + 4) <= fuel)%nat ->
  exists r,
    _invert fuel value n_mod = Ok r /\
    0 <= r < n_mod /\ (value * r) mod n_mod = 1.
Proof.
  intros Hn Hgcd Hfuel. unfold _invert.
  pose proof (Z.log2_nonneg n_mod) as Hlog.
  destruct fuel as [|fuel]; [lia|]. cbn [gcdex].
  destruct (Z.eqb_spec n_mod 0) as [|_]; [lia|].
  pose proof (Z.mod_pos_bound value n_mod ltac:(lia)) as Hr.
  pose proof (Z.div_mod value n_mod ltac:(lia)) as Hd.
  destruct (gcdex_returns fuel n_mod (value mod n_mod) ltac:(lia))
    as [[[g x] y] E].
  { assert (Z.log2 (value mod n_mod) <= Z.log2 n_mod)
      by (apply Z.log2_le_mono; lia). lia. }
  rewrite E. cbn.
  destruct (gcdex_sound fuel n_mod (value mod n_mod) g x y
              ltac:(lia) ltac:(lia) E) as (Hg & Hbez & Hbd).
  assert (g = 1) as ->.
  { by rewrite Hg, Z.gcd_comm, Z.gcd_mod, Z.gcd_comm by lia. }
  assert (value * y + n_mod * (x - y * (value / n_mod)) = 1) as Htop
    by nia.
  assert (Z.abs y <= n_mod) as Hy.
  { revert Hbd. destruct (value mod n_mod =? 0); lia. }
  assert (y <> n_mod) as Hne1.
  { intros Heq.
    assert (n_mod * (value + (x - y * (value / n_mod))) = 1) as Hmul
      by (rewrite <- Htop, Heq; ring).
    apply Z.eq_mul_1 in Hmul. lia. }
  assert (y <> - n_mod) as Hne2.
  { intros Heq.
    assert (n_mod * (- value + (x - y * (value / n_mod))) = 1) as Hmul
      by (rewrite <- Htop, Heq; ring).
    apply Z.eq_mul_1 in Hmul. lia. }
  eexists. split; [reflexivity|].
  destruct (Z.ltb_spec y 0).
  - split; [lia|].
    replace (value * (y + n_mod))
      with (1 + (value - (x - y * (value / n_mod))) * n_mod) by nia.
    rewrite Z.mod_add by lia. apply Z.mod_small. lia.
  - split; [lia|].
    replace (value * y)
      with (1 + (- (x - y * (value / n_mod))) * n_mod) by nia.
    rewrite Z.mod_add by lia. apply Z.mod_small. lia.
Qed.

Lemma invert_is_modular_inverse_witness :
  2 <= 7 /\ Z.gcd 3 7 = 1 /\
  (Z.to_nat (2 * Z.log2 7 + 4) <= 8)%nat /\
  exists r, _invert 8 3 7 = Ok r /\ 0 <= r < 7 /\ (3 * r) mod 7 = 1.
Proof.
  split; [lia|]. split; [reflexivity|]. split; [vm_compute; lia|].
  apply invert_is_modular_inverse; [lia|reflexivity|vm_compute; lia].
Defined.

Lemma invert_returns (fuel : nat) (value n_mod : Z) :
  0 <= n_mod ->
  (Z.to_nat (2 * Z.log2 n_mod + 3) <= fuel)%nat ->
  exists r, _invert fuel value n_mod = Ok r.
Proof.
  intros Hn Hfuel. unfold _invert.
  destruct (gcdex_returns fuel value n_mod Hn Hfuel) as [[[g x] y] ->].
  cbn. by eexists.
Qed.

Lemma int_to_bytearray_in_range (number : Z) (size : nat) :
  0 <= number < 256 ^ Z.of_nat size ->
  exists b, int_to_bytearray number size = Ok b /\ length b = size.
Proof.
  intros H. unfold int_to_bytearray.
  destruct (Z.leb_spec 0 number); [|lia].
  destruct (Z.ltb_spec number (256 ^ Z.of_nat size)); [|lia].
  eexists. split; [reflexivity|].
  unfold range_down. by rewrite length_map, length_rev, length_seq.
Qed.

Lemma int_to_bytearray_length (number : Z) (size : nat) (b : bytes) :
  int_to_bytearray number size = Ok b -> length b = size.
Proof.
  unfold int_to_bytearray. destruct (_ && _); [|done].
  intros [= <-]. unfold range_down.
  by rewrite length_map, length_rev, length_seq.
Qed.

(** [_add] on coordinates that fit the coordinate width returns a point
    with both coordinates reduced modulo [p]. *)
Theorem add_returns_reduced (fuel : nat) (self : GOST34102012)
  (x_1 x_2 y_1 y_2 : Z) :
  0 < _p self ->
  0 <= x_1 < 256 ^ Z.of_nat (_size self) ->
  0 <= x_2 < 256 ^ Z.of_nat (_size self) ->
  0 <= y_1 < 256 ^ Z.of_nat (_size self) ->
  0 <= y_2 < 256 ^ Z.of_nat (_size self) ->
  (Z.to_nat (2 * Z.log2 (_p self) + 3) <= fuel)%nat ->
  exists x_3 y_3,
    _add fuel self x_1 x_2 y_1 y_2 = Ok (x_3, y_3) /\
    0 <= x_3 < _p self /\ 0 <= y_3 < _p self.
Proof.
  intros Hp Hx1 Hx2 Hy1 Hy2 Hfuel. unfold _add.
  destruct (int_to_bytearray_in_range _ _ Hx1) as (bx1 & -> & _).
  destruct (int_to_bytearray_in_range _ _ Hx2) as (bx2 & -> & _).
  destruct (int_to_bytearray_in_range _ _ Hy1) as (by1 & -> & _).
  destruct (int_to_bytearray_in_range _ _ Hy2) as (by2 & -> & _).
  cbn [mbind result_bind]. unfold pymod.
  destruct (Z.eqb_spec (_p self) 0) as [|_]; [lia|].
  destruct (compare bx1 bx2 && compare by1 by2).
  - destruct (invert_returns fuel (2 * y_1) (_p self) ltac:(lia) Hfuel)
      as [inv ->].
    cbn [mbind result_bind]. do 2 eexists. split; [reflexivity|].
    split; apply Z.mod_pos_bound; lia.
  - cbn [mbind result_bind].
    destruct (invert_returns fuel ((x_2 - x_1) mod _p self) (_p self)
                ltac:(lia) Hfuel) as [inv ->].
    cbn [mbind result_bind]. do 2 eexists. split; [reflexivity|].
    split; apply Z.mod_pos_bound; lia.
Qed.

Lemma add_returns_reduced_witness :
  let self := paramSetB_context in
  0 < _p self /\
  0 <= _x self < 256 ^ Z.of_nat (_size self) /\
  0 <= _y self < 256 ^ Z.of_nat (_size self) /\
  (Z.to_nat (2 * Z.log2 (_p self) + 3) <= 600)%nat /\
  exists x_3 y_3,
    _add 600 self (_x self) (_x self) (_y self) (_y self) = Ok (x_3, y_3) /\
    0 <= x_3 < _p self /\ 0 <= y_3 < _p self.
Proof.
  split; [reflexivity|].
  split; [split; [discriminate|reflexivity]|].
  split; [split; [discriminate|reflexivity]|].
  split; [vm_compute; lia|].
  apply add_returns_reduced;
    first [reflexivity | split; [discriminate|reflexivity] | vm_compute; lia].
Defined.

(** A signature returned by [sign] is [2 * size] bytes long. *)
Theorem sign_returns_two_coordinates (fuel : nat) (self : GOST34102012)
  (urandom : nat -> bytes) (h h' : store) (private_key : loc)
  (digest signature : bytes) (rand_k : option bytes) :
  sign fuel self urandom h private_key digest rand_k = (Ok signature, h') ->
  length signature = (2 * _size self)%nat.
Proof.
  unfold sign. intros H.
  destruct (negb _); [done|].
  destruct (_ ≫= _) as [sign_e| |]; try done.
  destruct (sign_outer _ _ _ _ _ _ _) as [[st| |] h1]; try done.
  destruct (int_to_bytearray (var_sign_r st) (_size self)) as [r| |] eqn:Er;
    cbn [mbind result_bind] in H; try done.
  destruct (int_to_bytearray (var_sign_s st) (_size self)) as [s| |] eqn:Es;
    cbn [mbind result_bind] in H; try done.
  injection H as <- _.
  rewrite length_app, (int_to_bytearray_length _ _ _ Er),
    (int_to_bytearray_length _ _ _ Es). lia.
Qed.

Lemma sign_returns_two_coordinates_witness :
  let key := replicate 31 0 ++ [1] in
  let h : store := {[ 0%nat := key ]} in
  exists signature h',
    sign 8 paramSetB_context (fun _ => []) h 0%nat (replicate 31 0 ++ [2])
      (Some key) = (Ok signature, h') /\
    length signature = 64%nat.
Proof.
  cbv zeta.
  destruct (sign 8 paramSetB_context (fun _ => [])
              {[ 0%nat := replicate 31 0 ++ [1] ]} 0%nat
              (replicate 31 0 ++ [2]) (Some (replicate 31 0 ++ [1])))
    as [[signature| |] h'] eqn:E.
  - exists signature, h'. split; [reflexivity|].
    apply (sign_returns_two_coordinates _ _ _ _ _ _ _ _ _ E).
  - exfalso. vm_compute in E. discriminate E.
  - exfalso. vm_compute in E. discriminate E.
Defined.

(** A key returned by [public_key_generate] is [2 * size] bytes long. *)
Theorem public_key_has_two_coordinates (fuel : nat) (self : GOST34102012)
  (h h' : store) (private_key : loc) (public_key : bytes) :
  public_key_generate fuel self h private_key = (Ok public_key, h') ->
  length public_key = (2 * _size self)%nat.
Proof.
  unfold public_key_generate. intros H.
  destruct (negb _); [done|].
  destruct (_mul_point _ _ _ _) as [pt| |];
    cbn [mbind result_bind] in H; try done.
  destruct (int_to_bytearray (fst pt) (_size self)) as [bx| |] eqn:Ex;
    cbn [mbind result_bind] in H; try done.
  destruct (int_to_bytearray (snd pt) (_size self)) as [by_| |] eqn:Ey;
    cbn [mbind result_bind] in H; try done.
  injection H as <- _.
  rewrite length_app, (int_to_bytearray_length _ _ _ Ex),
    (int_to_bytearray_length _ _ _ Ey). lia.
Qed.

Lemma public_key_has_two_coordinates_witness :
  let h : store := {[ 0%nat := replicate 31 0 ++ [1] ]} in
  exists public_key h',
    public_key_generate 8 paramSetB_context h 0%nat = (Ok public_key, h') /\
    length public_key = 64%nat.
Proof.
  cbv zeta.
  destruct (public_key_generate 8 paramSetB_context
              {[ 0%nat := replicate 31 0 ++ [1] ]} 0%nat)
    as [[public_key| |] h'] eqn:E.
  - exists public_key, h'. split; [reflexivity|].
    apply (public_key_has_two_coordinates _ _ _ _ _ _ E).
  - exfalso. vm_compute in E. discriminate E.
  - exfalso. vm_compute in E. discriminate E.
Defined.

Lemma int_to_bytearray_zero (size : nat) (b : bytes) :
  int_to_bytearray 0 size = Ok b -> compare_to_zero b = true.
Proof.
  unfold int_to_bytearray. destruct (_ && _); [|done].
  intros [= <-]. unfold compare_to_zero. apply forallb_forall.
  intros x Hx. apply in_map_iff in Hx as (i & <- & _).
  by rewrite Z.shiftr_0_l.
Qed.

Lemma sign_inner_zero_rand_k (fuel : nat) (self : GOST34102012)
  (rk : bytes) (urandom : nat -> bytes) (h h' : store)
  (st st' : sign_locals) :
  bytearray_to_int rk = 0 ->
  var_sign_r st = 0 ->
  sign_inner fuel self (Some rk) urandom h st <> (Ok st', h').
Proof.
  intros Hk Hr. destruct fuel as [|fuel]; [done|].
  cbn [sign_inner]. rewrite Hr.
  destruct (int_to_bytearray 0 (_size self)) as [br| |] eqn:Hbr;
    [|done|done].
  rewrite (int_to_bytearray_zero _ _ Hbr). cbn [negb].
  destruct (negb _); [by destruct (alloc _ _)|].
  rewrite Hk.
  pose proof (mul_point_nonpositive (S fuel) self 0 None)
    as Hmul.
  destruct (_mul_point (S fuel) self 0 None) as [pt| |];
    cbn [mbind result_bind]; [|done|done].
  by destruct (Hmul pt).
Qed.

(** [sign] with a caller-supplied [rand_k] of value zero never returns a
    signature. *)
Theorem sign_zero_rand_k_never_returns (fuel : nat) (self : GOST34102012)
  (urandom : nat -> bytes) (h h' : store) (private_key : loc)
  (digest rand_k signature : bytes) :
  bytearray_to_int rand_k = 0 ->
  sign fuel self urandom h private_key digest (Some rand_k)
  <> (Ok signature, h').
Proof.
  intros Hk. unfold sign.
  destruct (negb _); [done|].
  destruct (_ ≫= _) as [sign_e| |]; [|done|done].
  destruct fuel as [|fuel]; [done|]. cbn [sign_outer var_sign_s].
  destruct (int_to_bytearray 0 (_size self)) as [bs| |] eqn:Hbs;
    [|done|done].
  rewrite (int_to_bytearray_zero _ _ Hbs). cbn [negb].
  pose proof (fun st' h1 =>
                sign_inner_zero_rand_k (S fuel) self rand_k urandom h h1
                  (mkLocals private_key 0 0 0 0) st' Hk eq_refl) as Hin.
  destruct (sign_inner (S fuel) self (Some rand_k) urandom h _)
    as [[st'| |] h1]; [|done|done].
  by destruct (Hin st' h1).
Qed.

Lemma sign_zero_rand_k_never_returns_witness :
  let h : store := {[ 0%nat := replicate 31 0 ++ [1] ]} in
  bytearray_to_int (replicate 32 0) = 0 /\
  sign 1000 paramSetB_context (fun _ => []) h 0%nat (replicate 32 7)
    (Some (replicate 32 0)) <> (Ok [], h).
Proof.
  split; [reflexivity|].
  apply sign_zero_rand_k_never_returns. reflexivity.
Defined.

Lemma int_to_bytearray_nonzero (number : Z) (size : nat) (b : bytes) :
  number <> 0 ->
  int_to_bytearray number size = Ok b -> compare_to_zero b = false.
Proof.
  unfold int_to_bytearray.
  destruct (Z.leb_spec 0 number) as [H0|]; [|done].
  destruct (Z.ltb_spec number (256 ^ Z.of_nat size)) as [Hlt|]; [|done].
  cbn [andb]. intros Hne [= <-].
  destruct (compare_to_zero _) eqn:Hall; [|done]. exfalso. apply Hne.
  unfold compare_to_zero in Hall. rewrite forallb_forall in Hall.
  apply Z.bits_inj'. intros n Hn. rewrite Z.bits_0.
  destruct (Z.lt_ge_cases n (8 * Z.of_nat size)) as [Hin|Hout].
  - assert (In (Z.land (Z.shiftr number (8 * Z.of_nat (Z.to_nat (n / 8)))) 255)
              (map (fun i => Z.land (Z.shiftr number (8 * Z.of_nat i)) 255)
                 (range_down size))) as Hmem.
    { apply in_map_iff. exists (Z.to_nat (n / 8)). split; [done|].
      unfold range_down. apply in_rev. rewrite rev_involutive.
      apply in_seq. split; [lia|].
      assert (n / 8 < Z.of_nat size) by (apply Z.div_lt_upper_bound; lia).
      pose proof (Z.div_pos n 8). lia. }
    apply Hall in Hmem. apply Z.eqb_eq in Hmem.
    assert (Hbit : Z.testbit
                     (Z.land (Z.shiftr number (8 * Z.of_nat (Z.to_nat (n / 8))))
                        255) (n mod 8) = false).
    { rewrite <- Hmem. apply Z.bits_0. }
    pose proof (Z.mod_pos_bound n 8 ltac:(lia)) as Hm.
    pose proof (Z.div_pos n 8 ltac:(lia) ltac:(lia)) as Hd.
    rewrite Z.land_spec, Z.shiftr_spec in Hbit by lia.
    rewrite Z2Nat.id in Hbit by lia.
    replace (n mod 8 + 8 * (n / 8)) with n in Hbit
      by (pose proof (Z.div_mod n 8); lia).
    change 255 with (Z.ones 8) in Hbit.
    rewrite Z.ones_spec_low, andb_true_r in Hbit by lia. exact Hbit.
  - apply (Z.bits_above_log2 number n); [lia|].
    destruct (Z.eq_dec number 0) as [->|Hnz]; [cbn; lia|].
    apply Z.log2_lt_pow2; [lia|].
    apply Z.lt_le_trans with (256 ^ Z.of_nat size); [done|].
    change 256 with (2 ^ 8). rewrite <- Z.pow_mul_r by lia.
    apply Z.pow_le_mono_r; lia.
Qed.

Lemma digest_value_computed (self : GOST34102012) (digest : bytes) :
  0 < _q self < 256 ^ Z.of_nat (_size self) ->
  (sign_e ← pymod (bytearray_to_int digest) (_q self);
   be ← int_to_bytearray sign_e (_size self);
   Ok (if compare_to_zero be then 1 else sign_e))
  = Ok (digest_value self digest).
Proof.
  intros Hq. unfold pymod, digest_value.
  destruct (Z.eqb_spec (_q self) 0) as [|_]; [lia|]. cbn [mbind result_bind].
  pose proof (Z.mod_pos_bound (bytearray_to_int digest) (_q self) ltac:(lia))
    as He.
  destruct (int_to_bytearray_in_range (bytearray_to_int digest mod _q self)
              (_size self) ltac:(lia)) as (be & Hbe & _).
  rewrite Hbe. cbn [mbind result_bind]. cbv zeta.
  destruct (Z.eqb_spec (bytearray_to_int digest mod _q self) 0) as [E|E].
  - rewrite E in Hbe. by rewrite (int_to_bytearray_zero _ _ Hbe).
  - by rewrite (int_to_bytearray_nonzero _ _ _ E Hbe).
Qed.

(** [verify] looks at the digest only through its value modulo [q], zero
    counting as one: two digests with the same such value, of whatever
    lengths, are accepted with exactly the same signatures. *)
Theorem verify_depends_on_digest_value (fuel : nat) (self : GOST34102012)
  (public_key digest digest' signature : bytes) :
  0 < _q self < 256 ^ Z.of_nat (_size self) ->
  digest_value self digest = digest_value self digest' ->
  verify fuel self public_key digest signature
  = verify fuel self public_key digest' signature.
Proof.
  intros Hq He. unfold verify.
  destruct (negb _); [done|]. cbv zeta.
  destruct (_ || _); [done|].
  pose proof (digest_value_computed self digest Hq) as H1.
  pose proof (digest_value_computed self digest' Hq) as H2.
  unfold pymod in *.
  destruct (Z.eqb_spec (_q self) 0) as [|_]; [lia|].
  cbn [mbind result_bind] in *.
  destruct (int_to_bytearray (bytearray_to_int digest mod _q self) _)
    as [be1| |]; [|done|done].
  destruct (int_to_bytearray (bytearray_to_int digest' mod _q self) _)
    as [be2| |]; [|done|done].
  cbn [mbind result_bind] in *.
  injection H1 as H1. injection H2 as H2. by rewrite H1, H2, He.
Qed.

Lemma verify_depends_on_digest_value_witness :
  let q := _q paramSetB_context in
  0 < q < 256 ^ Z.of_nat (_size paramSetB_context) /\
  digest_value paramSetB_context (replicate 32 0)
  = digest_value paramSetB_context (replicate 40 0 ++ [1]) /\
  verify 1000 paramSetB_context (replicate 64 1) (replicate 32 0)
    (replicate 64 2)
  = verify 1000 paramSetB_context (replicate 64 1) (replicate 40 0 ++ [1])
      (replicate 64 2).
Proof.
  assert (H : 0 < _q paramSetB_context
              < 256 ^ Z.of_nat (_size paramSetB_context)) by (cbn; lia).
  split; [exact H|]. split; [reflexivity|].
  by apply verify_depends_on_digest_value.
Defined.



End gostsignature_facts.
